(** * Serverless image proxy: the edge rewriter and the origin handler

    Shallow embedding of
      - functions/url-rewrite/index.js      (module [Edge]),
      - functions/image-processing/index.mjs (module [Origin]),
    together with the JavaScript and Node.js primitives they call
    (modules [JS] and [Node]).

    Strings that come from the request line are modelled as [string]: one
    8-bit code unit per character.  Strings produced by UTF-8 decoding are
    lists of UTF-16 code units ([ustring]), since decoding can produce code
    units above 255.

    The origin stage talks to the outside: URL parsing, DNS, the remote
    server, the codec, the object store and the clock.  Their answers are
    the fields of a record [Origin.World]; the handler is a function of
    the environment, the world, the content of the bucket and the event,
    and returns its outcome with the new content of the bucket. *)

From Stdlib Require Import ZArith Lia Ascii Permutation.
From Stdlib Require String.
From stdpp Require Import gmap strings list.

Local Open Scope Z_scope.
Local Arguments String.append : simpl nomatch.

(** ** JavaScript primitives *)

Module JS.

(** [str.charCodeAt(i)] of a character. *)
Definition code (c : ascii) : Z := Z.of_N (N_of_ascii c).

Definition chr (n : Z) : ascii := ascii_of_N (Z.to_N n).

(** UTF-16 code units of a JavaScript string. *)
Definition ustring := list Z.

Fixpoint units (s : string) : ustring :=
  match s with
  | EmptyString => []
  | String c r => code c :: units r
  end.

(** A string is truthy when it is not empty. *)
Definition truthy (s : string) : bool :=
  match s with EmptyString => false | _ => true end.

(** The string [s] begins with [p]. *)
Fixpoint starts_with (p s : string) : bool :=
  match p with
  | EmptyString => true
  | String a p' =>
      match s with
      | EmptyString => false
      | String b s' => Ascii.eqb a b && starts_with p' s'
      end
  end.

(** [hay.indexOf(needle)], scanning from position [i]. *)
Fixpoint indexOf_from (needle hay : string) (i : Z) : Z :=
  if starts_with needle hay then i
  else match hay with
       | EmptyString => -1
       | String _ r => indexOf_from needle r (i + 1)
       end.

Definition indexOf (hay needle : string) : Z := indexOf_from needle hay 0.

(** [hay.includes(needle)]. *)
Definition includes (hay needle : string) : bool :=
  negb (indexOf hay needle =? -1).

(** [String.prototype.toLowerCase] on 8-bit code units: A-Z and the
    Latin-1 capitals (all of 0xC0-0xDE but the multiplication sign). *)
Definition lower_char (c : ascii) : ascii :=
  let n := code c in
  if ((65 <=? n) && (n <=? 90)) || ((192 <=? n) && (n <=? 222) && negb (n =? 215))
  then chr (n + 32) else c.

Fixpoint toLowerCase (s : string) : string :=
  match s with
  | EmptyString => EmptyString
  | String c r => String (lower_char c) (toLowerCase r)
  end.

(** [Array.prototype.join]. *)
Fixpoint join (sep : string) (l : list string) : string :=
  match l with
  | [] => ""
  | [x] => x
  | x :: r => x +:+ sep +:+ join sep r
  end.

(** *** Numbers

    A JavaScript number that came out of [parseInt] is [NaN] or an
    integer.  The integer is kept exact; the handlers only compare it with
    0, 100, 4000 and byte counts, and print it when it is at most 4000, and
    rounding to a double changes none of these. *)
Inductive number := NaN | Num (z : Z).

Definition is_NaN (x : number) : bool :=
  match x with NaN => true | Num _ => false end.

(** [x > y]: false as soon as one side is NaN. *)
Definition gt (x y : number) : bool :=
  match x, y with Num a, Num b => b <? a | _, _ => false end.

(** [x <= y]. *)
Definition le (x y : number) : bool :=
  match x, y with Num a, Num b => a <=? b | _, _ => false end.

(** Truthiness of a number: neither NaN nor zero. *)
Definition truthy_number (x : number) : bool :=
  match x with NaN => false | Num z => negb (z =? 0) end.

(** White space skipped by [parseInt] (8-bit code units). *)
Definition is_white_space (c : ascii) : bool :=
  let n := code c in
  ((9 <=? n) && (n <=? 13)) || (n =? 32) || (n =? 160).

Fixpoint skip_white_space (s : string) : string :=
  match s with
  | String c r => if is_white_space c then skip_white_space r else s
  | EmptyString => s
  end.

Definition digit_value (radix : Z) (c : ascii) : option Z :=
  let n := code c in
  let v := if (48 <=? n) && (n <=? 57) then n - 48
           else if (97 <=? n) && (n <=? 122) then n - 87
           else if (65 <=? n) && (n <=? 90) then n - 55
           else 36 in
  if v <? radix then Some v else None.

(** Longest prefix of digits; [acc] is [None] until a digit was read. *)
Fixpoint parse_digits (radix : Z) (s : string) (acc : option Z) : option Z :=
  match s with
  | EmptyString => acc
  | String c r =>
      match digit_value radix c with
      | Some d => parse_digits radix r (Some (radix * default 0 acc + d))
      | None => acc
      end
  end.

(** [parseInt(s)] with no radix argument: white space, a sign, [0x] or
    [0X] for radix 16, then the longest run of digits. *)
Definition strip_sign (s : string) : bool * string :=
  match s with
  | String c r =>
      if Ascii.eqb c "-"%char then (true, r)
      else if Ascii.eqb c "+"%char then (false, r)
      else (false, s)
  | EmptyString => (false, s)
  end.

Definition strip_radix (s : string) : Z * string :=
  match s with
  | String c (String x r) =>
      if Ascii.eqb c "0"%char && (Ascii.eqb x "x"%char || Ascii.eqb x "X"%char)
      then (16, r) else (10, s)
  | _ => (10, s)
  end.

Definition parseInt (s : string) : number :=
  let '(neg, s2) := strip_sign (skip_white_space s) in
  let '(radix, s3) := strip_radix s2 in
  match parse_digits radix s3 None with
  | Some n => Num (if neg then - n else n)
  | None => NaN
  end.

Definition digit_char (d : Z) : ascii := chr (48 + d).

Fixpoint decimal_digits (fuel : nat) (n : Z) (acc : string) : string :=
  let acc' := String (digit_char (n mod 10)) acc in
  match fuel with
  | O => acc'
  | S f => if n / 10 =? 0 then acc' else decimal_digits f (n / 10) acc'
  end.

(** [n.toString()] for an integer (below 10^21, where JavaScript still
    prints every digit). *)
Definition Z_toString (n : Z) : string :=
  if n <? 0 then String "-"%char (decimal_digits (Z.to_nat (Z.log2 (- n))) (- n) "")
  else decimal_digits (Z.to_nat (Z.log2 n)) n "".

Definition toString (x : number) : string :=
  match x with NaN => "NaN" | Num z => Z_toString z end.

(** *** 32-bit integer operators *)

Definition to_int32 (z : Z) : Z := (z + 2 ^ 31) mod 2 ^ 32 - 2 ^ 31.

Definition shl (a n : Z) : Z := to_int32 (Z.shiftl (to_int32 a) n).
Definition shr (a n : Z) : Z := Z.shiftr (to_int32 a) n.
Definition bor (a b : Z) : Z := Z.lor (to_int32 a) (to_int32 b).
Definition band (a b : Z) : Z := Z.land (to_int32 a) (to_int32 b).

(** [s.charAt(i)]: the empty string out of range. *)
Fixpoint charAt_nat (s : string) (i : nat) : string :=
  match s, i with
  | EmptyString, _ => ""
  | String c _, O => String c ""
  | String _ r, S j => charAt_nat r j
  end.

Definition charAt (s : string) (i : Z) : string :=
  if i <? 0 then "" else charAt_nat s (Z.to_nat i).

(** [s.replace(/c/g, d)] for single characters. *)
Fixpoint replace_all (c d : ascii) (s : string) : string :=
  match s with
  | EmptyString => EmptyString
  | String x r => String (if Ascii.eqb x c then d else x) (replace_all c d r)
  end.

(** [s.replace(/c+$/, '')]: drop the trailing run of [c]. *)
Fixpoint strip_trailing (c : ascii) (s : string) : string :=
  match s with
  | EmptyString => EmptyString
  | String x r =>
      match strip_trailing c r with
      | EmptyString => if Ascii.eqb x c then EmptyString else String x EmptyString
      | r' => String x r'
      end
  end.

(** The pattern [/^https?:\/\/.+/i], on code units.  Case is folded on
    ASCII letters only; [.] is any code unit but a line terminator. *)
Definition ci (u : Z) (lower : Z) : bool := (u =? lower) || (u =? lower - 32).

Definition line_terminator (u : Z) : bool :=
  (u =? 10) || (u =? 13) || (u =? 8232) || (u =? 8233).

Definition colon_slash_slash_dot (u : ustring) : bool :=
  match u with
  | 58 :: 47 :: 47 :: c :: _ => negb (line_terminator c)
  | _ => false
  end.

Definition match_http_url (u : ustring) : bool :=
  match u with
  | h :: t1 :: t2 :: p :: r =>
      ci h 104 && ci t1 116 && ci t2 116 && ci p 112 &&
      (match r with
       | s :: r' => ci s 115 && colon_slash_slash_dot r'
       | [] => false
       end || colon_slash_slash_dot r)
  | _ => false
  end.

End JS.

(** ** The edge stage: functions/url-rewrite/index.js *)

Module Edge.

(** The viewer request of a CloudFront Function event.  [querystring] and
    [headers] are objects keyed by name; they are kept as association
    lists in key order ([Object.keys]), each name bound to its [value]. *)
Record Request := {
  method : string;
  uri : string;
  querystring : list (string * string);
  headers : option (list (string * string));
}.

(** The response object the function returns instead of a request. *)
Record Response := {
  statusCode : Z;
  statusDescription : string;
  body : string;
}.

Inductive Result :=
| Forward (r : Request)
| Respond (resp : Response).

(** [obj[key]]: the first binding of the key, [None] for undefined. *)
Fixpoint prop (obj : list (string * string)) (key : string) : option string :=
  match obj with
  | [] => None
  | (k, v) :: r => if String.eqb k key then Some v else prop r key
  end.

Definition keys (obj : list (string * string)) : list string := map fst obj.

Definition base64chars : string :=
  "ABCDEFGHIJKLMNOPQRSTUVWXYZabcdefghijklmnopqrstuvwxyz0123456789+/".

(** One turn of the loop of [base64Encode]: [charsRead] characters were
    read into [a], [b], [c]. *)
Definition encode_chunk (a b c : Z) (charsRead : Z) : string :=
  let bitmap := JS.bor (JS.bor (JS.shl a 16) (JS.shl b 8)) c in
  JS.charAt base64chars (JS.band (JS.shr bitmap 18) 63) +:+
  JS.charAt base64chars (JS.band (JS.shr bitmap 12) 63) +:+
  (if 1 <? charsRead then JS.charAt base64chars (JS.band (JS.shr bitmap 6) 63) else "=") +:+
  (if 2 <? charsRead then JS.charAt base64chars (JS.band bitmap 63) else "=").

Fixpoint base64Encode (str : string) : string :=
  match str with
  | EmptyString => ""
  | String a EmptyString => encode_chunk (JS.code a) 0 0 1
  | String a (String b EmptyString) => encode_chunk (JS.code a) (JS.code b) 0 2
  | String a (String b (String c rest)) =>
      encode_chunk (JS.code a) (JS.code b) (JS.code c) 3 +:+ base64Encode rest
  end.

(** Base64 made URL-safe: [+] and [/] replaced, padding stripped. *)
Definition encodeUrl (imageUrl : string) : string :=
  JS.strip_trailing "="%char
    (JS.replace_all "/"%char "_"%char
       (JS.replace_all "+"%char "-"%char (base64Encode imageUrl))).

Definition SUPPORTED_FORMATS : list string :=
  ["auto"; "jpeg"; "webp"; "avif"; "png"; "svg"; "gif"].

Fixpoint formatFound (formats : list string) (formatValue : string) : bool :=
  match formats with
  | [] => false
  | f :: r => if String.eqb f formatValue then true else formatFound r formatValue
  end.

(** Resolution of [format=auto] from the Accept header. *)
Definition negotiate (hdrs : option (list (string * string))) : string :=
  match hdrs with
  | Some h =>
      match prop h "accept" with
      | Some acceptValue =>
          if negb (JS.indexOf acceptValue "avif" =? -1) then "avif"
          else if negb (JS.indexOf acceptValue "webp" =? -1) then "webp"
          else "jpeg"
      | None => "jpeg"
      end
  | None => "jpeg"
  end.

Definition dimension (value : string) : option string :=
  let n := JS.parseInt value in
  if negb (JS.is_NaN n) && JS.gt n (JS.Num 0) && JS.le n (JS.Num 4000)
  then Some (JS.toString n) else None.

Definition clamp_quality (value : string) : option string :=
  let quality := JS.parseInt value in
  if negb (JS.is_NaN quality) && JS.gt quality (JS.Num 0)
  then Some (JS.toString (if JS.gt quality (JS.Num 100) then JS.Num 100 else quality))
  else None.

(** The body of the loop over the query-string keys. *)
Definition normalize_step (r : Request) (normalizedOperations : gmap string string)
    (operation : string) : gmap string string :=
  if String.eqb operation "url" then normalizedOperations
  else
    let opLower := JS.toLowerCase operation in
    let value := default "" (prop (querystring r) operation) in
    if String.eqb opLower "format" then
      if JS.truthy value then
        let formatValue := JS.toLowerCase value in
        if formatFound SUPPORTED_FORMATS formatValue then
          let format :=
            if String.eqb formatValue "auto" then negotiate (headers r)
            else formatValue in
          <["format" := format]> normalizedOperations
        else normalizedOperations
      else normalizedOperations
    else if String.eqb opLower "width" then
      if JS.truthy value then
        match dimension value with
        | Some w => <["width" := w]> normalizedOperations
        | None => normalizedOperations
        end
      else normalizedOperations
    else if String.eqb opLower "height" then
      if JS.truthy value then
        match dimension value with
        | Some h => <["height" := h]> normalizedOperations
        | None => normalizedOperations
        end
      else normalizedOperations
    else if String.eqb opLower "quality" then
      if JS.truthy value then
        match clamp_quality value with
        | Some q => <["quality" := q]> normalizedOperations
        | None => normalizedOperations
        end
      else normalizedOperations
    else normalizedOperations.

Definition normalizeOperations (r : Request) : gmap string string :=
  fold_left (normalize_step r) (keys (querystring r)) ∅.

(** [if (ops[name]) array.push(name + '=' + ops[name])]. *)
Definition push_operation (normalizedOperations : gmap string string)
    (name : string) (array : list string) : list string :=
  match normalizedOperations !! name with
  | Some v => if JS.truthy v then array ++ [name +:+ "=" +:+ v] else array
  | None => array
  end.

Definition operationsSuffix (normalizedOperations : gmap string string) : string :=
  if bool_decide (0 < size normalizedOperations)%nat then
    JS.join ","
      (push_operation normalizedOperations "height"
         (push_operation normalizedOperations "width"
            (push_operation normalizedOperations "quality"
               (push_operation normalizedOperations "format" []))))
  else "original".

Definition handler (request : Request) : Result :=
  if JS.indexOf (uri request) "/proxy/" =? 0 then Forward request
  else
    match prop (querystring request) "url" with
    | Some imageUrl =>
        if negb (JS.truthy imageUrl) then
          Respond {| statusCode := 400; statusDescription := "Bad Request";
                     body := "Missing required parameter: url" |}
        else if negb (JS.match_http_url (JS.units imageUrl)) then
          Respond {| statusCode := 400; statusDescription := "Bad Request";
                     body := "Invalid URL format" |}
        else
          Forward {| method := method request;
                     uri := "/proxy/" +:+ encodeUrl imageUrl +:+ "/" +:+
                            operationsSuffix (normalizeOperations request);
                     querystring := [];
                     headers := headers request |}
    | None =>
        Respond {| statusCode := 400; statusDescription := "Bad Request";
                   body := "Missing required parameter: url" |}
    end.

End Edge.

(** ** JavaScript and Node.js primitives of the origin stage *)

Module Node.

Definition bytes := list Z.

(** Value of a character of the base64 or the base64url alphabet. *)
Definition unbase64 (c : ascii) : option Z :=
  let n := JS.code c in
  if (65 <=? n) && (n <=? 90) then Some (n - 65)
  else if (97 <=? n) && (n <=? 122) then Some (n - 71)
  else if (48 <=? n) && (n <=? 57) then Some (n + 4)
  else if (n =? 43) || (n =? 45) then Some 62
  else if (n =? 47) || (n =? 95) then Some 63
  else None.

(** The decoder reads up to the first padding character and skips every
    character outside the alphabet. *)
Fixpoint sextets (s : string) : list Z :=
  match s with
  | EmptyString => []
  | String c r =>
      if Ascii.eqb c "="%char then []
      else match unbase64 c with
           | Some v => v :: sextets r
           | None => sextets r
           end
  end.

Fixpoint bytes_of_sextets (l : list Z) : bytes :=
  match l with
  | s1 :: s2 :: s3 :: s4 :: r =>
      (s1 * 4 + s2 / 16) :: (s2 mod 16 * 16 + s3 / 4) :: (s3 mod 4 * 64 + s4)
      :: bytes_of_sextets r
  | [s1; s2; s3] => [s1 * 4 + s2 / 16; s2 mod 16 * 16 + s3 / 4]
  | [s1; s2] => [s1 * 4 + s2 / 16]
  | _ => []
  end.

(** [Buffer.from(s, 'base64')]; missing padding is accepted. *)
Definition Buffer_from_base64 (s : string) : bytes :=
  bytes_of_sextets (sextets s).

(** The UTF-8 decoder behind [buf.toString('utf-8')]: [cp] is the code
    point read so far, [needed] the continuation bytes still expected and
    [lower]-[upper] the range allowed for the next one.  An ill-formed
    sequence decodes to U+FFFD and decoding resumes at the offending
    byte. *)
Record utf8_state := {
  cp : Z;
  needed : Z;
  lower : Z;
  upper : Z;
}.

Definition utf8_idle : utf8_state :=
  {| cp := 0; needed := 0; lower := 128; upper := 191 |}.

Definition utf8_lead (b : Z) : list Z * utf8_state :=
  if b <=? 127 then ([b], utf8_idle)
  else if (194 <=? b) && (b <=? 223) then
    ([], {| cp := Z.land b 31; needed := 1; lower := 128; upper := 191 |})
  else if (224 <=? b) && (b <=? 239) then
    ([], {| cp := Z.land b 15; needed := 2;
            lower := if b =? 224 then 160 else 128;
            upper := if b =? 237 then 159 else 191 |})
  else if (240 <=? b) && (b <=? 244) then
    ([], {| cp := Z.land b 7; needed := 3;
            lower := if b =? 240 then 144 else 128;
            upper := if b =? 244 then 143 else 191 |})
  else ([65533], utf8_idle).

Definition utf8_step (st : utf8_state) (b : Z) : list Z * utf8_state :=
  if needed st =? 0 then utf8_lead b
  else if (lower st <=? b) && (b <=? upper st) then
    let cp' := cp st * 64 + Z.land b 63 in
    if needed st =? 1 then ([cp'], utf8_idle)
    else ([], {| cp := cp'; needed := needed st - 1; lower := 128; upper := 191 |})
  else
    let '(out, st') := utf8_lead b in (65533 :: out, st').

Fixpoint utf8_decode (bs : bytes) (st : utf8_state) : list Z :=
  match bs with
  | [] => if needed st =? 0 then [] else [65533]
  | b :: r => let '(out, st') := utf8_step st b in out ++ utf8_decode r st'
  end.

(** A code point as UTF-16 code units. *)
Definition utf16_units (c : Z) : list Z :=
  if c <? 65536 then [c]
  else [55296 + (c - 65536) / 1024; 56320 + (c - 65536) mod 1024].

(** [buf.toString('utf-8')]. *)
Definition Buffer_toString_utf8 (bs : bytes) : JS.ustring :=
  concat (map utf16_units (utf8_decode bs utf8_idle)).

Definition utf8_bytes (c : Z) : bytes :=
  if c <? 128 then [c]
  else if c <? 2048 then [192 + c / 64; 128 + c mod 64]
  else if c <? 65536 then [224 + c / 4096; 128 + c / 64 mod 64; 128 + c mod 64]
  else [240 + c / 262144; 128 + c / 4096 mod 64; 128 + c / 64 mod 64; 128 + c mod 64].

Definition high_surrogate (u : Z) : bool := (55296 <=? u) && (u <=? 56319).
Definition low_surrogate (u : Z) : bool := (56320 <=? u) && (u <=? 57343).

(** [Buffer.from(str)]: UTF-8, a lone surrogate encoded as U+FFFD. *)
Fixpoint Buffer_from (u : JS.ustring) : bytes :=
  match u with
  | [] => []
  | h :: r =>
      if high_surrogate h then
        match r with
        | l :: r' =>
            if low_surrogate l
            then utf8_bytes (65536 + (h - 55296) * 1024 + (l - 56320)) ++ Buffer_from r'
            else utf8_bytes 65533 ++ Buffer_from r
        | [] => utf8_bytes 65533
        end
      else if low_surrogate h then utf8_bytes 65533 ++ Buffer_from r
      else utf8_bytes h ++ Buffer_from r
  end.

(** [buf.toString('base64')]: the standard alphabet, padded. *)
Fixpoint Buffer_toString_base64 (bs : bytes) : string :=
  let ch := JS.charAt Edge.base64chars in
  match bs with
  | [] => ""
  | [a] => ch (a / 4) +:+ ch (a mod 4 * 16) +:+ "=="
  | [a; b] => ch (a / 4) +:+ ch (a mod 4 * 16 + b / 16) +:+ ch (b mod 16 * 4) +:+ "="
  | a :: b :: c :: r =>
      ch (a / 4) +:+ ch (a mod 4 * 16 + b / 16) +:+ ch (b mod 16 * 4 + c / 64) +:+
      ch (c mod 64) +:+ Buffer_toString_base64 r
  end.

(** [s.split(sep)] for a one-character separator. *)
Fixpoint split (sep : ascii) (s : string) : list string :=
  match s with
  | EmptyString => [""]
  | String c r =>
      if Ascii.eqb c sep then "" :: split sep r
      else match split sep r with
           | h :: t => String c h :: t
           | [] => [String c ""]
           end
  end.

Definition quote : string := String (JS.chr 34) "".
Definition backslash : string := String (JS.chr 92) "".

Definition hex_digit (d : Z) : ascii :=
  if d <? 10 then JS.chr (48 + d) else JS.chr (87 + d).

(** [JSON.stringify] of a string. *)
Definition json_escape (c : ascii) : string :=
  let n := JS.code c in
  if n =? 34 then backslash +:+ quote
  else if n =? 92 then backslash +:+ backslash
  else if n =? 8 then backslash +:+ "b"
  else if n =? 9 then backslash +:+ "t"
  else if n =? 10 then backslash +:+ "n"
  else if n =? 12 then backslash +:+ "f"
  else if n =? 13 then backslash +:+ "r"
  else if n <? 32 then
    backslash +:+ "u00" +:+ String (hex_digit (n / 16)) (String (hex_digit (n mod 16)) "")
  else String c "".

Fixpoint json_escape_all (s : string) : string :=
  match s with
  | EmptyString => ""
  | String c r => json_escape c +:+ json_escape_all r
  end.

Definition JSON_stringify_string (s : string) : string :=
  quote +:+ json_escape_all s +:+ quote.

(** [JSON.stringify({ error: body })]. *)
Definition JSON_stringify_error (body : string) : string :=
  "{" +:+ quote +:+ "error" +:+ quote +:+ ":" +:+ JSON_stringify_string body +:+ "}".

End Node.

(** ** The origin stage: functions/image-processing/index.mjs *)

Module Origin.

(** The process environment of the Lambda function, as the stack sets it
    ([LambdaEnv]): the bucket name is optional. *)
Record ProcessEnv := {
  transformedImageBucketName : option string;
  transformedImageCacheTTL : string;
  maxImageSize : string;
  fetchTimeout : string;
  maxFileSize : string;
}.

Definition S3_TRANSFORMED_IMAGE_BUCKET (env : ProcessEnv) : option string :=
  transformedImageBucketName env.
Definition TRANSFORMED_IMAGE_CACHE_TTL (env : ProcessEnv) : string :=
  transformedImageCacheTTL env.
Definition MAX_IMAGE_SIZE (env : ProcessEnv) : JS.number :=
  JS.parseInt (maxImageSize env).
Definition MAX_FILE_SIZE (env : ProcessEnv) : JS.number :=
  let n := JS.parseInt (maxFileSize env) in
  if JS.truthy_number n then n else JS.Num 52428800.

(** The parts of [new URL(url)] that the guard reads. *)
Record ParsedURL := {
  protocol : string;
  hostname : string;
}.

Inductive FetchError :=
| AbortError
| OtherError (message : string).

(** The response of [fetch], with the outcome of [arrayBuffer()]. *)
Record FetchResponse := {
  ok : bool;
  status : Z;
  statusText : string;
  content_type : option string;
  content_length : option string;
  arrayBuffer : Node.bytes + FetchError;
}.

Record Metadata := {
  orientation : option Z;
}.

Record ResizeOptions := {
  fit : string;
  withoutEnlargement : bool;
  width : option JS.number;
  height : option JS.number;
}.

(** The calls made on the Sharp instance before [toBuffer()]. *)
Record Pipeline := {
  resize : option ResizeOptions;
  rotate : bool;
  toFormat : option (string * option JS.number);
}.

Record S3Object := {
  Body : Node.bytes;
  ContentType : string;
  CacheControl : string;
  Metadata_ : list (string * string);
}.

Record PutObjectInput := {
  Bucket : string;
  Key : string;
  Object_ : S3Object;
}.

(** Everything outside the function: URL parsing, DNS, the remote server,
    the codec, the object store and the clock.  A failed promise or a
    thrown exception is [None] or the right injection. *)
Record World := {
  parseURL : JS.ustring -> ParsedURL + string;
  resolve4 : string -> option (list string);
  resolve6 : string -> option (list string);
  fetch : JS.ustring -> FetchResponse + FetchError;
  sharp_metadata : Node.bytes -> option Metadata;
  sharp_toBuffer : Node.bytes -> Pipeline -> option Node.bytes;
  s3_send : PutObjectInput -> bool;
  download_ms : Z;
  transform_ms : Z;
  upload_ms : Z;
}.

Record Http := {
  http_method : string;
  path : string;
}.

Record RequestContext := {
  http : option Http;
}.

Record Event := {
  requestContext : option RequestContext;
}.

Record Response := {
  statusCode : Z;
  body : option string;
  isBase64Encoded : bool;
  headers : list (string * string);
}.

(** What an invocation ends with: a response, or an exception that no
    handler caught. *)
Inductive Outcome :=
| Returned (r : Response)
| Thrown.

Definition range_172 (ip : string) : bool :=
  match ip with
  | String "1"%char (String "7"%char (String "2"%char (String "."%char
      (String d1 (String d2 (String "."%char _)))))) =>
      let a := JS.code d1 in
      let b := JS.code d2 in
      ((a =? 49) && (54 <=? b) && (b <=? 57)) ||
      ((a =? 50) && (48 <=? b) && (b <=? 57)) ||
      ((a =? 51) && (48 <=? b) && (b <=? 49))
  | _ => false
  end.

(** A pattern [/^p/i] for a lower-case ASCII [p]. *)
Definition prefix_ci (p ip : string) : bool :=
  JS.starts_with p (JS.toLowerCase ip).

Definition BLOCKED_IP_RANGES : list (string -> bool) :=
  [ JS.starts_with "10.";
    range_172;
    JS.starts_with "192.168.";
    JS.starts_with "127.";
    JS.starts_with "169.254.";
    JS.starts_with "0.";
    JS.starts_with "224.";
    JS.starts_with "240.";
    String.eqb "::1";
    JS.starts_with "::";
    prefix_ci "fe80:";
    prefix_ci "fc00:";
    prefix_ci "fd00:";
    prefix_ci "ff00:" ].

Definition VALID_IMAGE_TYPES : list string :=
  [ "image/jpeg"; "image/jpg"; "image/png"; "image/webp"; "image/gif";
    "image/svg+xml"; "image/avif"; "image/bmp"; "image/tiff" ].

Definition blocked (ip : string) : bool :=
  existsb (fun range => range ip) BLOCKED_IP_RANGES.

(** [validateUrl]: the parsed URL, or the message of the error thrown. *)
Definition validateUrl (w : World) (url : JS.ustring) : ParsedURL + string :=
  match parseURL w url with
  | inr message => inr message
  | inl parsedUrl =>
      if negb (existsb (String.eqb (protocol parsedUrl)) ["http:"; "https:"])
      then inr "Only HTTP/HTTPS protocols allowed"
      else
        let ipv4Addresses := default [] (resolve4 w (hostname parsedUrl)) in
        let ipv6Addresses := default [] (resolve6 w (hostname parsedUrl)) in
        let allIps := ipv4Addresses ++ ipv6Addresses in
        if existsb blocked allIps
        then inr "Access to private IP addresses is blocked"
        else inl parsedUrl
  end.

Definition error_message (e : FetchError) : string :=
  match e with
  | AbortError => "Request timeout"
  | OtherError message => message
  end.

Definition string_of_option (o : option string) : string :=
  match o with Some s => s | None => "null" end.

(** [fetchExternalImage]: buffer and content type, or the message of the
    error thrown. *)
Definition fetchExternalImage (env : ProcessEnv) (w : World) (url : JS.ustring)
  : (Node.bytes * string) + string :=
  match fetch w url with
  | inr e => inr (error_message e)
  | inl response =>
      if negb (ok response) then
        inr ("HTTP " +:+ JS.Z_toString (status response) +:+ ": " +:+ statusText response)
      else
        match content_type response with
        | Some contentType =>
            if negb (JS.truthy contentType) ||
               negb (existsb (fun type => JS.includes (JS.toLowerCase contentType) type)
                       VALID_IMAGE_TYPES)
            then inr ("Invalid content type: " +:+ contentType)
            else if match content_length response with
                    | Some contentLength =>
                        JS.truthy contentLength &&
                        JS.gt (JS.parseInt contentLength) (MAX_FILE_SIZE env)
                    | None => false
                    end
            then inr "Image file too large"
            else
              match arrayBuffer response with
              | inr e => inr (error_message e)
              | inl buffer =>
                  if JS.gt (JS.Num (Z.of_nat (length buffer))) (MAX_FILE_SIZE env)
                  then inr "Image file too large"
                  else inl (buffer, contentType)
              end
        | None => inr ("Invalid content type: " +:+ string_of_option None)
        end
  end.

Definition sendError (statusCode : Z) (body : string) : Response :=
  {| statusCode := statusCode;
     body := Some (Node.JSON_stringify_error body);
     isBase64Encoded := false;
     headers := [("Content-Type", "application/json"); ("Cache-Control", "no-store")] |}.

(** [Object.fromEntries(prefix.split(',').map(op => op.split('=')))]:
    each entry binds its first element to its second, undefined when
    there is none; a later entry replaces an earlier one. *)
Definition entry (operation : string) : string * option string :=
  match Node.split "="%char operation with
  | k :: v :: _ => (k, Some v)
  | [k] => (k, None)
  | [] => ("", None)
  end.

Definition operations_of (operationsPrefix : string) : gmap string (option string) :=
  fold_left (fun m e => <[fst e := snd e]> m)
    (map entry (Node.split ","%char operationsPrefix)) ∅.

(** [operationsJSON[name]] when it is truthy. *)
Definition operation (operationsJSON : gmap string (option string)) (name : string)
  : option string :=
  match operationsJSON !! name with
  | Some (Some v) => if JS.truthy v then Some v else None
  | _ => None
  end.

Definition resizingOptions (operationsJSON : gmap string (option string)) : ResizeOptions :=
  {| fit := "inside";
     withoutEnlargement := true;
     width := JS.parseInt <$> operation operationsJSON "width";
     height := JS.parseInt <$> operation operationsJSON "height" |}.

Definition truthy_dimension (d : option JS.number) : bool :=
  match d with Some n => JS.truthy_number n | None => false end.

Definition truthy_orientation (m : Metadata) : bool :=
  match orientation m with Some o => negb (o =? 0) | None => false end.

(** Content type and lossiness chosen by the [switch] on the format. *)
Definition format_type (format : string) : string * bool :=
  if String.eqb format "jpeg" then ("image/jpeg", true)
  else if String.eqb format "gif" then ("image/gif", false)
  else if String.eqb format "webp" then ("image/webp", true)
  else if String.eqb format "png" then ("image/png", false)
  else if String.eqb format "avif" then ("image/avif", true)
  else ("image/jpeg", true).

(** The calls the handler makes on the image, from the operations and the
    orientation of the source. *)
Definition pipeline (operationsJSON : gmap string (option string)) (m : Metadata) : Pipeline :=
  let options := resizingOptions operationsJSON in
  {| resize := if truthy_dimension (width options) || truthy_dimension (height options)
               then Some options else None;
     rotate := truthy_orientation m;
     toFormat :=
       match operation operationsJSON "format" with
       | Some format =>
           match operation operationsJSON "quality" with
           | Some quality =>
               if snd (format_type format) then Some (format, Some (JS.parseInt quality))
               else Some (format, None)
           | None => Some (format, None)
           end
       | None => None
       end |}.

Definition output_type (operationsJSON : gmap string (option string)) (contentType : string)
  : string :=
  match operation operationsJSON "format" with
  | Some format => fst (format_type format)
  | None => if String.eqb contentType "image/svg+xml" then "image/png" else contentType
  end.

(** The URL of the path segment, or [None] when the [try] block throws. *)
Definition decodeUrl (encodedUrl : string) : option JS.ustring :=
  let base64 := JS.replace_all "_"%char "/"%char
                  (JS.replace_all "-"%char "+"%char encodedUrl) in
  let imageUrl := Node.Buffer_toString_utf8 (Node.Buffer_from_base64 base64) in
  if JS.match_http_url imageUrl then Some imageUrl else None.

Definition is_GET (event : Event) : bool :=
  match requestContext event with
  | Some ctx =>
      match http ctx with
      | Some h => String.eqb (http_method h) "GET"
      | None => false
      end
  | None => false
  end.

Definition event_path (event : Event) : string :=
  match requestContext event with
  | Some ctx => match http ctx with Some h => path h | None => "" end
  | None => ""
  end.

(** The object the handler stores, and the command that stores it. *)
Definition stored_object (env : ProcessEnv) (operationsPrefix : string)
    (imageUrl : JS.ustring) (transformedImage : Node.bytes) (contentType : string)
  : S3Object :=
  let safeUrl := Node.Buffer_toString_base64 (Node.Buffer_from imageUrl) in
  {| Body := transformedImage;
     ContentType := contentType;
     CacheControl := TRANSFORMED_IMAGE_CACHE_TTL env;
     Metadata_ := [("original-url-base64", safeUrl);
                   ("transformations", operationsPrefix)] |}.

Definition putImageCommand (env : ProcessEnv) (bucket encodedUrl operationsPrefix : string)
    (imageUrl : JS.ustring) (transformedImage : Node.bytes) (contentType : string)
  : PutObjectInput :=
  let cacheKey := encodedUrl +:+ "/" +:+ operationsPrefix in
  {| Bucket := bucket;
     Key := cacheKey;
     Object_ := stored_object env operationsPrefix imageUrl transformedImage contentType |}.

(** The response that carries the image itself. *)
Definition inline_response (env : ProcessEnv) (transformedImage : Node.bytes)
    (contentType timingLog : string) : Response :=
  {| statusCode := 200;
     body := Some (Node.Buffer_toString_base64 transformedImage);
     isBase64Encoded := true;
     headers := [("Content-Type", contentType);
                 ("Cache-Control", TRANSFORMED_IMAGE_CACHE_TTL env);
                 ("Server-Timing", timingLog)] |}.

Definition redirect_response (encodedUrl operationsPrefix timingLog : string) : Response :=
  {| statusCode := 307;
     body := None;
     isBase64Encoded := false;
     headers := [("Location", "/proxy/" +:+ encodedUrl +:+ "/" +:+ operationsPrefix);
                 ("Cache-Control", "no-store");
                 ("Server-Timing", timingLog)] |}.

(** The last part of the handler: persist and answer.  The store is the
    content of the bucket of transformed images. *)
Definition respond (env : ProcessEnv) (w : World) (store : gmap string S3Object)
    (encodedUrl operationsPrefix : string) (imageUrl : JS.ustring)
    (transformedImage : Node.bytes) (contentType timingLog : string)
  : Outcome * gmap string S3Object :=
  let imageTooBig :=
    JS.gt (JS.Num (Z.of_nat (length transformedImage))) (MAX_IMAGE_SIZE env) in
  let fallback (timingLog : string) :=
    if imageTooBig then
      Returned (sendError 413 "Requested transformed image is too big")
    else Returned (inline_response env transformedImage contentType timingLog) in
  match S3_TRANSFORMED_IMAGE_BUCKET env with
  | Some bucket =>
      if JS.truthy bucket then
        let command := putImageCommand env bucket encodedUrl operationsPrefix imageUrl
                         transformedImage contentType in
        if s3_send w command then
          let store' := <[Key command := Object_ command]> store in
          let timingLog' :=
            timingLog +:+ ",img-upload;dur=" +:+ JS.Z_toString (upload_ms w) in
          if imageTooBig then
            (Returned (redirect_response encodedUrl operationsPrefix timingLog'), store')
          else (fallback timingLog', store')
        else (fallback timingLog, store)
      else (fallback timingLog, store)
  | None => (fallback timingLog, store)
  end.

(** The Server-Timing value before the upload. *)
Definition timing (w : World) : string :=
  "img-download;dur=" +:+ JS.Z_toString (download_ms w) +:+
  ",img-transform;dur=" +:+ JS.Z_toString (transform_ms w).

Definition handler (env : ProcessEnv) (w : World) (store : gmap string S3Object)
    (event : Event) : Outcome * gmap string S3Object :=
  if negb (is_GET event) then
    (Returned (sendError 400 "Only GET method is supported"), store)
  else
    let pathParts := List.filter JS.truthy (Node.split "/"%char (event_path event)) in
    match pathParts with
    | first :: encodedUrl :: rest =>
        if negb (String.eqb first "proxy") then
          (Returned (sendError 400 "Invalid request path format"), store)
        else
          let operationsPrefix :=
            match rest with
            | p :: _ => p
            | [] => "original"
            end in
          match decodeUrl encodedUrl with
          | None => (Returned (sendError 400 "Failed to decode URL"), store)
          | Some imageUrl =>
              match validateUrl w imageUrl with
              | inr message =>
                  (Returned (sendError 403 ("URL validation failed: " +:+ message)), store)
              | inl _ =>
                  match fetchExternalImage env w imageUrl with
                  | inr message =>
                      if JS.includes message "timeout" then
                        (Returned (sendError 504 "Request timeout while fetching image"), store)
                      else if JS.includes message "too large" then
                        (Returned (sendError 413 "Image file too large"), store)
                      else if JS.includes message "content type" then
                        (Returned (sendError 415 "Unsupported media type"), store)
                      else
                        (Returned (sendError 502
                                     ("Failed to fetch external image: " +:+ message)), store)
                  | inl (originalImageBody, contentType) =>
                      match sharp_metadata w originalImageBody with
                      | None => (Thrown, store)
                      | Some imageMetadata =>
                          let operationsJSON := operations_of operationsPrefix in
                          match sharp_toBuffer w originalImageBody
                                  (pipeline operationsJSON imageMetadata) with
                          | None => (Returned (sendError 500 "Error transforming image"), store)
                          | Some transformedImage =>
                              respond env w store encodedUrl operationsPrefix imageUrl
                                transformedImage (output_type operationsJSON contentType)
                                (timing w)
                          end
                      end
                  end
              end
          end
    | _ => (Returned (sendError 400 "Invalid request path format"), store)
    end.

End Origin.

(** * Specification vocabulary and examples *)

(** A request with the given query string and Accept header. *)
Definition req (q : list (string * string)) (accept : option string) : Edge.Request :=
  {| Edge.method := "GET"; Edge.uri := "/";
     Edge.querystring := q;
     Edge.headers := Some (match accept with Some a => [("accept", a)] | None => [] end) |}.

(** The Accept header of a request, when it has one. *)
Definition accept_header (r : Edge.Request) : option string :=
  match Edge.headers r with
  | Some h => Edge.prop h "accept"
  | None => None
  end.

(** The format negotiated from an Accept header: avif when the header
    mentions it, else webp when it mentions it, else jpeg. *)
Definition negotiated_format (accept : option string) : string :=
  match accept with
  | Some a =>
      if JS.includes a "avif" then "avif"
      else if JS.includes a "webp" then "webp"
      else "jpeg"
  | None => "jpeg"
  end.

(** A width or height survives when it parses as an integer [n] with
    [0 < n <= 4000]. *)
Definition bounded_dimension (value : string) : option string :=
  match JS.parseInt value with
  | JS.Num n => if (0 <? n) && (n <=? 4000) then Some (JS.Z_toString n) else None
  | JS.NaN => None
  end.

(** A quality survives when it parses as an integer [n] with [0 < n], and
    is clamped to 100. *)
Definition clamped_quality (value : string) : option string :=
  match JS.parseInt value with
  | JS.Num n => if 0 <? n then Some (JS.Z_toString (Z.min n 100)) else None
  | JS.NaN => None
  end.

(** A format survives when it is one of the supported ones; [auto] is
    replaced by the negotiated format. *)
Definition resolved_format (accept : option string) (value : string) : option string :=
  let v := JS.toLowerCase value in
  if Edge.formatFound Edge.SUPPORTED_FORMATS v
  then Some (if String.eqb v "auto" then negotiated_format accept else v)
  else None.

(** The value that survives for the operation [name] when the parameter
    has the given value. *)
Definition kept_value (accept : option string) (name value : string) : option string :=
  if String.eqb name "format" then resolved_format accept value
  else if String.eqb name "width" then bounded_dimension value
  else if String.eqb name "height" then bounded_dimension value
  else if String.eqb name "quality" then clamped_quality value
  else None.

Definition contribution (r : Edge.Request) (operation : string) : option string :=
  if String.eqb operation "url" then None
  else kept_value (accept_header r) (JS.toLowerCase operation)
         (default "" (Edge.prop (Edge.querystring r) operation)).

Definition operation_names : list string := ["format"; "quality"; "width"; "height"].

Definition serialized (name : string) (value : option string) : list string :=
  match value with
  | Some v => [name +:+ "=" +:+ v]
  | None => []
  end.

(** The operations suffix of the canonical key: the operations that are
    present, in the order format, quality, width, height, joined by
    commas; [original] when there is none. *)
Definition canonical_suffix (format quality width height : option string) : string :=
  match (serialized "format" format ++ serialized "quality" quality ++
         serialized "width" width ++ serialized "height" height)%list with
  | [] => "original"
  | l => JS.join "," l
  end.

Definition canonical_path (url : string) (ops : gmap string string) : string :=
  "/proxy/" +:+ Edge.encodeUrl url +:+ "/" +:+
  canonical_suffix (ops !! "format") (ops !! "quality") (ops !! "width") (ops !! "height").

Definition example_url : string := "https://example.com/a.jpg".

Definition request_a : Edge.Request :=
  req [("url", example_url); ("width", "300"); ("format", "webp"); ("quality", "80")] None.

Definition request_b : Edge.Request :=
  req [("quality", "80"); ("format", "webp"); ("url", example_url); ("width", "300")] None.

(** The path a request is rewritten to, when it is rewritten. *)
Definition rewritten_uri (r : Edge.Request) : option string :=
  match Edge.handler r with
  | Edge.Forward r' => Some (Edge.uri r')
  | Edge.Respond _ => None
  end.

(** The non-empty segments of the path of an event. *)
Definition path_parts (event : Origin.Event) : list string :=
  List.filter JS.truthy (Node.split "/"%char (Origin.event_path event)).

(** The invocation gets as far as a transformed image: the request is a
    GET for [/proxy/encodedUrl/operationsPrefix], the URL decodes and
    passes the guard, the fetch and the transformation succeed. *)
Definition reaches_computed (env : Origin.ProcessEnv) (w : Origin.World)
    (event : Origin.Event) (encodedUrl operationsPrefix : string)
    (imageUrl : JS.ustring) (transformedImage : Node.bytes) (contentType : string) : Prop :=
  Origin.is_GET event = true /\
  exists rest parsedUrl originalImageBody sourceType imageMetadata,
    path_parts event = "proxy" :: encodedUrl :: rest /\
    operationsPrefix = match rest with p :: _ => p | [] => "original" end /\
    Origin.decodeUrl encodedUrl = Some imageUrl /\
    Origin.validateUrl w imageUrl = inl parsedUrl /\
    Origin.fetchExternalImage env w imageUrl = inl (originalImageBody, sourceType) /\
    Origin.sharp_metadata w originalImageBody = Some imageMetadata /\
    Origin.sharp_toBuffer w originalImageBody
      (Origin.pipeline (Origin.operations_of operationsPrefix) imageMetadata)
      = Some transformedImage /\
    contentType = Origin.output_type (Origin.operations_of operationsPrefix) sourceType.

(** The byte length of the image exceeds the configured maximum. *)
Definition too_big (env : Origin.ProcessEnv) (transformedImage : Node.bytes) : bool :=
  JS.gt (JS.Num (Z.of_nat (length transformedImage))) (Origin.MAX_IMAGE_SIZE env).

(** An environment: with or without a bucket, and a maximal output size. *)
Definition example_env (bucket : option string) (size : string) : Origin.ProcessEnv :=
  {| Origin.transformedImageBucketName := bucket;
     Origin.transformedImageCacheTTL := "max-age=31622400";
     Origin.maxImageSize := size;
     Origin.fetchTimeout := "10000";
     Origin.maxFileSize := "52428800" |}.

(** A world where the host resolves to [ips], the remote server answers
    with a JPEG, the codec produces [image] and the store accepts or
    refuses the upload. *)
Definition example_world (ips : list string) (image : Node.bytes) (send_ok : bool)
  : Origin.World :=
  {| Origin.parseURL := fun _ => inl {| Origin.protocol := "https:";
                                        Origin.hostname := "example.com" |};
     Origin.resolve4 := fun _ => Some ips;
     Origin.resolve6 := fun _ => None;
     Origin.fetch := fun _ =>
       inl {| Origin.ok := true; Origin.status := 200; Origin.statusText := "OK";
              Origin.content_type := Some "image/jpeg";
              Origin.content_length := Some "3";
              Origin.arrayBuffer := inl [255; 216; 255] |};
     Origin.sharp_metadata := fun _ => Some {| Origin.orientation := None |};
     Origin.sharp_toBuffer := fun _ _ => Some image;
     Origin.s3_send := fun _ => send_ok;
     Origin.download_ms := 12;
     Origin.transform_ms := 34;
     Origin.upload_ms := 5 |}.

Definition get (path : string) : Origin.Event :=
  {| Origin.requestContext :=
       Some {| Origin.http := Some {| Origin.http_method := "GET"; Origin.path := path |} |} |}.

Definition example_encoded : string := "aHR0cHM6Ly9leGFtcGxlLmNvbS9hLmpwZw".

Definition example_event : Origin.Event :=
  get ("/proxy/" +:+ example_encoded +:+ "/width=300").


Fixpoint has_char (c : ascii) (s : string) : bool :=
  match s with
  | EmptyString => false
  | String x r => Ascii.eqb x c || has_char c r
  end.


(** The text of an IPv4 address. *)
Definition dotted (a b c d : Z) : string :=
  JS.Z_toString a +:+ "." +:+ JS.Z_toString b +:+ "." +:+
  JS.Z_toString c +:+ "." +:+ JS.Z_toString d.

(** The address [a.b.c.d] lies in 10.0.0.0/8, 172.16.0.0/12,
    192.168.0.0/16, 127.0.0.0/8, 169.254.0.0/16 or 0.0.0.0/8. *)
Definition private_ipv4 (a b : Z) : Prop :=
  a = 10 \/ (a = 172 /\ 16 <= b <= 31) \/ (a = 192 /\ b = 168) \/
  a = 127 \/ (a = 169 /\ b = 254) \/ a = 0.

(** An address of one of these ranges, or the IPv6 loopback or
    unspecified address. *)
Definition guarded_address (ip : string) : Prop :=
  (exists a b c d, ip = dotted a b c d /\ private_ipv4 a b) \/ ip = "::1" \/ ip = "::".

(** The addresses the guard looks at. *)
Definition resolved_addresses (w : Origin.World) (parsedUrl : Origin.ParsedURL) : list string :=
  default [] (Origin.resolve4 w (Origin.hostname parsedUrl)) ++
  default [] (Origin.resolve6 w (Origin.hostname parsedUrl)).

(** The example world with a codec that only accepts a resize to the
    given width, and one with a codec that cannot read the image. *)
Definition world_accepting_width (n : Z) : Origin.World :=
  let w := example_world ["93.184.216.34"] [1; 2; 3] true in
  {| Origin.parseURL := Origin.parseURL w;
     Origin.resolve4 := Origin.resolve4 w;
     Origin.resolve6 := Origin.resolve6 w;
     Origin.fetch := Origin.fetch w;
     Origin.sharp_metadata := Origin.sharp_metadata w;
     Origin.sharp_toBuffer := fun _ p =>
       match Origin.resize p with
       | Some options =>
           match Origin.width options with
           | Some (JS.Num z) => if z =? n then Some [1; 2; 3] else None
           | _ => None
           end
       | None => None
       end;
     Origin.s3_send := Origin.s3_send w;
     Origin.download_ms := Origin.download_ms w;
     Origin.transform_ms := Origin.transform_ms w;
     Origin.upload_ms := Origin.upload_ms w |}.

Definition world_unreadable_image : Origin.World :=
  let w := example_world ["93.184.216.34"] [1; 2; 3] true in
  {| Origin.parseURL := Origin.parseURL w;
     Origin.resolve4 := Origin.resolve4 w;
     Origin.resolve6 := Origin.resolve6 w;
     Origin.fetch := Origin.fetch w;
     Origin.sharp_metadata := fun _ => None;
     Origin.sharp_toBuffer := Origin.sharp_toBuffer w;
     Origin.s3_send := Origin.s3_send w;
     Origin.download_ms := Origin.download_ms w;
     Origin.transform_ms := Origin.transform_ms w;
     Origin.upload_ms := Origin.upload_ms w |}.

(** A URL with the character of code 233 (e with an acute accent): the
    edge stage encodes the code unit as one byte, and the origin stage,
    reading UTF-8, decodes that byte to U+FFFD. *)
Definition accented_url : string := "https://example.com/caf" +:+ String "233"%char "".

(** Binding the name of a key to what the key contributes, if anything. *)
Definition insert_contribution (name_of : string -> string) (contrib : string -> option string)
    (m : gmap string string) (k : string) : gmap string string :=
  match contrib k with
  | Some v => <[name_of k := v]> m
  | None => m
  end.

(** ** Vocabulary of the further properties *)

(** Every character of the string satisfies the test. *)
Fixpoint all_chars (P : ascii -> bool) (s : string) : bool :=
  match s with
  | EmptyString => true
  | String c r => P c && all_chars P r
  end.

(** A letter, a digit, [-] or [_]. *)
Definition url_safe (c : ascii) : bool :=
  let n := JS.code c in
  ((65 <=? n) && (n <=? 90)) || ((97 <=? n) && (n <=? 122)) ||
  ((48 <=? n) && (n <=? 57)) || (n =? 45) || (n =? 95).

(** The substitution that makes a base64 character URL-safe. *)
Definition substitute (c : ascii) : ascii :=
  if Ascii.eqb c "+"%char then "-"%char
  else if Ascii.eqb c "/"%char then "_"%char else c.

Fixpoint map_chars (f : ascii -> ascii) (s : string) : string :=
  match s with
  | EmptyString => EmptyString
  | String c r => String (f c) (map_chars f r)
  end.

(** The serialized operations of an operation set, in canonical order. *)
Definition serialized_operations (ops : gmap string string) : list string :=
  serialized "format" (ops !! "format") ++ serialized "quality" (ops !! "quality") ++
  serialized "width" (ops !! "width") ++ serialized "height" (ops !! "height").

(** A number handed to the codec is absent, or an integer of (0, bound]. *)
Definition within (bound : Z) (d : option JS.number) : Prop :=
  match d with
  | None => True
  | Some (JS.Num n) => 0 < n <= bound
  | Some JS.NaN => False
  end.

(** The request with another query string. *)
Definition with_querystring (r : Edge.Request) (q : list (string * string)) : Edge.Request :=
  {| Edge.method := Edge.method r;
     Edge.uri := Edge.uri r;
     Edge.querystring := q;
     Edge.headers := Edge.headers r |}.

Definition parameter (ops : gmap string string) (name : string) : list (string * string) :=
  match ops !! name with
  | Some s => [(name, s)]
  | None => []
  end.

(** The query string that spells out an operation set: the url, then the
    operations present, under their lower-case names. *)
Definition canonical_query (u : string) (ops : gmap string string) : list (string * string) :=
  ("url", u) :: parameter ops "format" ++ parameter ops "quality" ++
  parameter ops "width" ++ parameter ops "height".

(** The invocation gets as far as the fetch: the request is a GET for
    [/proxy/encodedUrl/...], the URL decodes and passes the guard. *)
Definition reaches_fetch (w : Origin.World) (event : Origin.Event) (imageUrl : JS.ustring)
  : Prop :=
  Origin.is_GET event = true /\
  exists encodedUrl rest parsedUrl,
    path_parts event = "proxy" :: encodedUrl :: rest /\
    Origin.decodeUrl encodedUrl = Some imageUrl /\
    Origin.validateUrl w imageUrl = inl parsedUrl.

(** The content type passes the check of [fetchExternalImage]. *)
Definition accepted_type (content_type : option string) : bool :=
  match content_type with
  | Some contentType =>
      JS.truthy contentType &&
      existsb (fun type => JS.includes (JS.toLowerCase contentType) type)
        Origin.VALID_IMAGE_TYPES
  | None => false
  end.

(** The first two octets of the IPv4 addresses the guard refuses. *)
Definition blocked_ipv4 (a b : Z) : bool :=
  (a =? 10) || ((a =? 172) && (16 <=? b) && (b <=? 31)) || ((a =? 192) && (b =? 168)) ||
  (a =? 127) || ((a =? 169) && (b =? 254)) || (a =? 0) || (a =? 224) || (a =? 240).

(** The example world with another answer of the remote server. *)
Definition world_fetching (answer : Origin.FetchResponse + Origin.FetchError) : Origin.World :=
  let w := example_world ["93.184.216.34"] [1; 2; 3] true in
  {| Origin.parseURL := Origin.parseURL w;
     Origin.resolve4 := Origin.resolve4 w;
     Origin.resolve6 := Origin.resolve6 w;
     Origin.fetch := fun _ => answer;
     Origin.sharp_metadata := Origin.sharp_metadata w;
     Origin.sharp_toBuffer := Origin.sharp_toBuffer w;
     Origin.s3_send := Origin.s3_send w;
     Origin.download_ms := Origin.download_ms w;
     Origin.transform_ms := Origin.transform_ms w;
     Origin.upload_ms := Origin.upload_ms w |}.

Definition answer_with (content_type content_length : option string) (body : Node.bytes)
  : Origin.FetchResponse + Origin.FetchError :=
  inl {| Origin.ok := true; Origin.status := 200; Origin.statusText := "OK";
         Origin.content_type := content_type;
         Origin.content_length := content_length;
         Origin.arrayBuffer := inl body |}.

(** The calls the origin stage is expected to make on the image for the
    operations the edge stage kept: a resize when a width or a height was
    kept, a conversion when a format was kept, with the quality for the
    formats other than gif and png. *)
Definition expected_pipeline (operations : gmap string string) (m : Origin.Metadata)
  : Origin.Pipeline :=
  {| Origin.resize :=
       match operations !! "width", operations !! "height" with
       | None, None => None
       | width, height =>
           Some {| Origin.fit := "inside";
                   Origin.withoutEnlargement := true;
                   Origin.width := JS.parseInt <$> width;
                   Origin.height := JS.parseInt <$> height |}
       end;
     Origin.rotate := Origin.truthy_orientation m;
     Origin.toFormat :=
       match operations !! "format" with
       | Some format =>
           if String.eqb format "gif" || String.eqb format "png"
           then Some (format, None)
           else Some (format, JS.parseInt <$> operations !! "quality")
       | None => None
       end |}.

(** * The embedding on concrete inputs *)

Example parseInt_suffix : JS.parseInt "300px" = JS.Num 300.
Proof. reflexivity. Qed.

Example parseInt_hexadecimal : JS.parseInt " 0x1F" = JS.Num 31.
Proof. reflexivity. Qed.

Example parseInt_letters : JS.parseInt "abc" = JS.NaN.
Proof. reflexivity. Qed.

Example parseInt_negative : JS.parseInt "-12.5" = JS.Num (-12).
Proof. reflexivity. Qed.

Example Z_toString_4000 : JS.Z_toString 4000 = "4000".
Proof. reflexivity. Qed.

Example strip_trailing_padding : JS.strip_trailing "="%char "ab=c==" = "ab=c".
Proof. reflexivity. Qed.

Example match_upper_case : JS.match_http_url (JS.units "HTTPS://x") = true.
Proof. reflexivity. Qed.

Example match_ftp : JS.match_http_url (JS.units "ftp://example.com/a.jpg") = false.
Proof. reflexivity. Qed.

Example match_no_host : JS.match_http_url (JS.units "https://") = false.
Proof. reflexivity. Qed.

Example encodeUrl_photo :
  Edge.encodeUrl "https://example.com/photo.jpg" = "aHR0cHM6Ly9leGFtcGxlLmNvbS9waG90by5qcGc".
Proof. reflexivity. Qed.

Example encodeUrl_url_safe : Edge.encodeUrl "https://a/?>~" = "aHR0cHM6Ly9hLz8-fg".
Proof. reflexivity. Qed.

(** The scenario of the README: format=auto, width=300, a client that
    accepts WebP. *)
Example handler_scenario :
  Edge.handler (req [("url", example_url); ("format", "auto"); ("width", "300")]
                  (Some "image/webp"))
  = Edge.Forward {| Edge.method := "GET";
                    Edge.uri := "/proxy/aHR0cHM6Ly9leGFtcGxlLmNvbS9hLmpwZw/format=webp,width=300";
                    Edge.querystring := [];
                    Edge.headers := Some [("accept", "image/webp")] |}.
Proof. vm_compute. reflexivity. Qed.

Example handler_missing_url :
  Edge.handler (req [("width", "300")] None)
  = Edge.Respond {| Edge.statusCode := 400; Edge.statusDescription := "Bad Request";
                    Edge.body := "Missing required parameter: url" |}.
Proof. reflexivity. Qed.

Example handler_ftp_url :
  Edge.handler (req [("url", "ftp://example.com/a.jpg")] None)
  = Edge.Respond {| Edge.statusCode := 400; Edge.statusDescription := "Bad Request";
                    Edge.body := "Invalid URL format" |}.
Proof. reflexivity. Qed.

(** Parameter names that differ by case only: the later one wins, so the
    order of such parameters matters. *)
Example handler_case_variants :
  rewritten_uri (req [("url", example_url); ("width", "100"); ("WIDTH", "200")] None)
    = Some ("/proxy/" +:+ example_encoded +:+ "/width=200") /\
  rewritten_uri (req [("url", example_url); ("WIDTH", "200"); ("width", "100")] None)
    = Some ("/proxy/" +:+ example_encoded +:+ "/width=100").
Proof. split; vm_compute; reflexivity. Qed.

Example Buffer_from_base64_unpadded :
  Node.Buffer_from_base64 "aHR0cHM6Ly9h" = JS.units "https://a".
Proof. reflexivity. Qed.

Example Buffer_toString_base64_padded :
  Node.Buffer_toString_base64 (JS.units "https://example.com/photo.jpg")
  = "aHR0cHM6Ly9leGFtcGxlLmNvbS9waG90by5qcGc=".
Proof. reflexivity. Qed.

(** One, two, three and four byte sequences, and two ill-formed ones. *)
Example Buffer_toString_utf8_mixed :
  Node.Buffer_toString_utf8
    [104; 195; 169; 233; 226; 130; 172; 240; 159; 152; 128; 226; 130]
  = [104; 233; 65533; 8364; 55357; 56832; 65533].
Proof. reflexivity. Qed.

Example Buffer_from_mixed :
  Node.Buffer_from [104; 233; 8364; 55357; 56832; 55357]
  = [104; 195; 169; 226; 130; 172; 240; 159; 152; 128; 239; 191; 189].
Proof. reflexivity. Qed.

Example JSON_stringify_error_escapes :
  Node.JSON_stringify_error ("a" +:+ Node.quote +:+ "b")
  = "{" +:+ Node.quote +:+ "error" +:+ Node.quote +:+ ":" +:+ Node.quote +:+
    "a" +:+ Node.backslash +:+ Node.quote +:+ "b" +:+ Node.quote +:+ "}".
Proof. reflexivity. Qed.

Example operations_of_original :
  Origin.operations_of "original" = {[ "original" := None ]}.
Proof. reflexivity. Qed.

(** A width sent straight to the origin stage reaches the codec: the
    codec of this world refuses every other pipeline. *)
Example direct_width_reaches_codec :
  fst (Origin.handler (example_env None "4700000") (world_accepting_width 999999) ∅
         (get ("/proxy/" +:+ example_encoded +:+ "/width=999999")))
  = Origin.Returned
      (Origin.inline_response (example_env None "4700000") [1; 2; 3] "image/jpeg"
         "img-download;dur=12,img-transform;dur=34") /\
  fst (Origin.handler (example_env None "4700000") (world_accepting_width 999999) ∅
         (get ("/proxy/" +:+ example_encoded +:+ "/width=4000")))
  = Origin.Returned (Origin.sendError 500 "Error transforming image").
Proof. split; vm_compute; reflexivity. Qed.

(** An image the codec cannot read makes [metadata()] fail outside every
    [try]: the invocation ends with an exception, not with a response. *)
Example unreadable_image_throws :
  Origin.handler (example_env None "4700000") world_unreadable_image ∅ example_event
  = (Origin.Thrown, ∅).
Proof. vm_compute. reflexivity. Qed.

(** * Properties of the edge stage *)

Lemma indexOf_from_range needle hay i :
  JS.indexOf_from needle hay i = -1 \/ i <= JS.indexOf_from needle hay i.
Proof.
  revert i. induction hay as [|c hay IH]; intros i; cbn [JS.indexOf_from].
  - destruct (JS.starts_with needle ""); lia.
  - destruct (JS.starts_with needle (String c hay)); [lia|].
    destruct (IH (i + 1)); lia.
Qed.

Lemma indexOf_zero hay needle :
  (JS.indexOf hay needle =? 0) = JS.starts_with needle hay.
Proof.
  unfold JS.indexOf. destruct hay as [|c hay]; cbn [JS.indexOf_from].
  - destruct (JS.starts_with needle ""); reflexivity.
  - destruct (JS.starts_with needle (String c hay)); [reflexivity|].
    destruct (indexOf_from_range needle hay (0 + 1)) as [H|H];
      apply Z.eqb_neq; lia.
Qed.


Lemma handler_proxy_prefix (r : Edge.Request) :
  JS.starts_with "/proxy/" (Edge.uri r) = true -> Edge.handler r = Edge.Forward r.
Proof.
  intros H. unfold Edge.handler. rewrite indexOf_zero, H. reflexivity.
Qed.

Lemma handler_forward_prefix (r r' : Edge.Request) :
  Edge.handler r = Edge.Forward r' -> JS.starts_with "/proxy/" (Edge.uri r') = true.
Proof.
  unfold Edge.handler. rewrite indexOf_zero.
  destruct (JS.starts_with "/proxy/" (Edge.uri r)) eqn:Hp.
  - intros [= <-]. exact Hp.
  - destruct (Edge.prop (Edge.querystring r) "url") as [u|]; [|discriminate].
    destruct (negb (JS.truthy u)); [discriminate|].
    destruct (negb (JS.match_http_url (JS.units u))); [discriminate|].
    intros [= <-]. reflexivity.
Qed.

(** C9. A request whose path begins with [/proxy/] is returned as it is;
    in particular every request the normalizer has produced is a fixed
    point of the normalizer. *)
Theorem normalize_idempotent (r r0 : Edge.Request) :
  JS.starts_with "/proxy/" (Edge.uri r) = true \/ Edge.handler r0 = Edge.Forward r ->
  Edge.handler r = Edge.Forward r.
Proof.
  intros [H|H]; apply handler_proxy_prefix; [exact H|].
  exact (handler_forward_prefix r0 r H).
Qed.

Lemma normalize_idempotent_witness :
  let r0 := req [("url", "https://example.com/a.jpg"); ("width", "300")] None in
  let r := {| Edge.method := "GET";
              Edge.uri := "/proxy/aHR0cHM6Ly9leGFtcGxlLmNvbS9hLmpwZw/width=300";
              Edge.querystring := [];
              Edge.headers := Some [] |} in
  Edge.handler r0 = Edge.Forward r /\ Edge.handler r = Edge.Forward r.
Proof.
  intros r0 r.
  assert (H : Edge.handler r0 = Edge.Forward r) by (vm_compute; reflexivity).
  split; [exact H|].
  apply (normalize_idempotent r r0). right. exact H.
Defined.

(** ** What a query parameter contributes *)

Lemma negotiate_spec (r : Edge.Request) :
  Edge.negotiate (Edge.headers r) = negotiated_format (accept_header r).
Proof.
  unfold Edge.negotiate, accept_header, negotiated_format, JS.includes.
  destruct (Edge.headers r) as [h|]; [|reflexivity].
  destruct (Edge.prop h "accept"); reflexivity.
Qed.

Lemma dimension_spec (value : string) : Edge.dimension value = bounded_dimension value.
Proof.
  unfold Edge.dimension, bounded_dimension.
  destruct (JS.parseInt value) as [|n]; [reflexivity|]. cbn.
  destruct (0 <? n); destruct (n <=? 4000); reflexivity.
Qed.

Lemma clamp_quality_spec (value : string) :
  Edge.clamp_quality value = clamped_quality value.
Proof.
  unfold Edge.clamp_quality, clamped_quality.
  destruct (JS.parseInt value) as [|n]; [reflexivity|]. cbn.
  destruct (0 <? n); [|reflexivity].
  destruct (Z.ltb_spec 100 n).
  - rewrite Z.min_r by lia. reflexivity.
  - rewrite Z.min_l by lia. reflexivity.
Qed.

Lemma formatFound_truthy (v : string) :
  Edge.formatFound Edge.SUPPORTED_FORMATS (JS.toLowerCase v) = true -> JS.truthy v = true.
Proof. destruct v; [discriminate|reflexivity]. Qed.

(** The loop body inserts the contribution of the key under the lower-cased
    key, or leaves the operations alone. *)
Lemma normalize_step_contribution (r : Edge.Request) (m : gmap string string) (k : string) :
  Edge.normalize_step r m k =
  match contribution r k with
  | Some v => <[JS.toLowerCase k := v]> m
  | None => m
  end.
Proof.
  unfold Edge.normalize_step, contribution, kept_value.
  destruct (String.eqb k "url"); [reflexivity|].
  set (value := default "" (Edge.prop (Edge.querystring r) k)).
  destruct (String.eqb_spec (JS.toLowerCase k) "format") as [->|_].
  { unfold resolved_format.
    destruct (Edge.formatFound Edge.SUPPORTED_FORMATS (JS.toLowerCase value)) eqn:Hf.
    - rewrite (formatFound_truthy _ Hf), negotiate_spec. reflexivity.
    - destruct (JS.truthy value); reflexivity. }
  destruct (String.eqb_spec (JS.toLowerCase k) "width") as [->|_].
  { rewrite dimension_spec. destruct value; [reflexivity|].
    cbn [JS.truthy]. reflexivity. }
  destruct (String.eqb_spec (JS.toLowerCase k) "height") as [->|_].
  { rewrite dimension_spec. destruct value; [reflexivity|].
    cbn [JS.truthy]. reflexivity. }
  destruct (String.eqb_spec (JS.toLowerCase k) "quality") as [->|_].
  { rewrite clamp_quality_spec. destruct value; [reflexivity|].
    cbn [JS.truthy]. reflexivity. }
  reflexivity.
Qed.

(** ** Folding optional insertions over a list of keys *)

Section FoldInsert.
Variable name_of : string -> string.
Variable contrib : string -> option string.

Lemma fold_insert_untouched (ks : list string) (m : gmap string string) (name : string) :
  (forall k, In k ks -> name_of k = name -> contrib k = None) ->
  fold_left (insert_contribution name_of contrib) ks m !! name = m !! name.
Proof.
  revert m. induction ks as [|k ks IH]; intros m H; [reflexivity|].
  cbn [fold_left]. rewrite IH by (intros; apply H; [right|]; assumption).
  unfold insert_contribution.
  destruct (contrib k) as [v|] eqn:Hc; [|reflexivity].
  apply lookup_insert_ne. intros Hn.
  specialize (H k (or_introl eq_refl) Hn). congruence.
Qed.

Lemma fold_insert_last (ks1 ks2 : list string) (k v : string) (m : gmap string string) :
  contrib k = Some v ->
  (forall k', In k' ks2 -> name_of k' = name_of k -> contrib k' = None) ->
  fold_left (insert_contribution name_of contrib) (ks1 ++ k :: ks2) m !! name_of k = Some v.
Proof.
  intros Hk H2. rewrite fold_left_app. cbn [fold_left].
  rewrite fold_insert_untouched by exact H2.
  unfold insert_contribution at 1. rewrite Hk. apply lookup_insert_eq.
Qed.

Lemma fold_insert_origin (ks : list string) (m : gmap string string) (name s : string) :
  fold_left (insert_contribution name_of contrib) ks m !! name = Some s ->
  m !! name = Some s \/ exists k, In k ks /\ name_of k = name /\ contrib k = Some s.
Proof.
  revert m. induction ks as [|k ks IH]; intros m H; [left; exact H|].
  cbn [fold_left] in H. destruct (IH _ H) as [Hm|(k' & Hin & Hn & Hc)].
  - unfold insert_contribution in Hm. destruct (contrib k) as [v|] eqn:Hc; [|left; exact Hm].
    destruct (decide (name_of k = name)) as [Heq|Hne].
    + subst name. rewrite lookup_insert_eq in Hm. injection Hm as ->.
      right. exists k. split; [left; reflexivity|split; [reflexivity|exact Hc]].
    + rewrite lookup_insert_ne in Hm by exact Hne. left; exact Hm.
  - right. exists k'. split; [right; exact Hin|split; assumption].
Qed.

(** With pairwise distinct names, the binding of a name is the
    contribution of the one key that carries it. *)
Lemma fold_insert_unique (ks : list string) (k : string) :
  NoDup (map name_of ks) -> In k ks ->
  fold_left (insert_contribution name_of contrib) ks ∅ !! name_of k = contrib k.
Proof.
  intros Hnd Hin. apply in_split in Hin as (ks1 & ks2 & ->).
  rewrite map_app in Hnd. cbn [map] in Hnd.
  assert (Hother : forall k', In k' (ks1 ++ ks2) -> name_of k' <> name_of k).
  { intros k' Hin' Heq. apply NoDup_app in Hnd as (_ & Hd & Hnd2).
    apply NoDup_cons in Hnd2 as (Hnot & _).
    apply in_app_or in Hin' as [Hin'|Hin'].
    - apply (Hd (name_of k')).
      + apply list_elem_of_In, in_map, Hin'.
      + rewrite Heq. left.
    - apply Hnot. rewrite <- Heq. apply list_elem_of_In, in_map, Hin'. }
  destruct (contrib k) as [v|] eqn:Hc.
  - apply fold_insert_last; [exact Hc|].
    intros k' Hin' Heq. exfalso. apply (Hother k'); [apply in_or_app; right|]; assumption.
  - rewrite fold_insert_untouched; [apply lookup_empty|].
    intros k' Hin' Heq. apply in_app_or in Hin' as [Hin'|[<-|Hin']]; [|exact Hc|].
    + exfalso. apply (Hother k'); [apply in_or_app; left|]; assumption.
    + exfalso. apply (Hother k'); [apply in_or_app; right|]; assumption.
Qed.

Lemma fold_insert_absent (ks : list string) (name : string) :
  (forall k, In k ks -> name_of k <> name) ->
  fold_left (insert_contribution name_of contrib) ks ∅ !! name = None.
Proof.
  intros H. rewrite fold_insert_untouched; [apply lookup_empty|].
  intros k Hin Heq. exfalso. exact (H k Hin Heq).
Qed.
End FoldInsert.

Section FoldAgree.
Variable name_of : string -> string.
Variable contrib : string -> option string.

(** When every key that carries a name contributes the same thing, the
    name ends up bound to it. *)
Lemma fold_insert_agree (ks : list string) (m : gmap string string)
    (name : string) (c : option string) :
  (exists k, In k ks /\ name_of k = name) ->
  (forall k, In k ks -> name_of k = name -> contrib k = c) ->
  fold_left (insert_contribution name_of contrib) ks m !! name =
  match c with Some v => Some v | None => m !! name end.
Proof.
  revert m. induction ks as [|k0 ks IH]; intros m Hex Hall.
  { destruct Hex as (k & [] & _). }
  cbn [fold_left].
  assert (Hstep : insert_contribution name_of contrib m k0 !! name =
                  if decide (name_of k0 = name)
                  then match c with Some v => Some v | None => m !! name end
                  else m !! name).
  { unfold insert_contribution. destruct (decide (name_of k0 = name)) as [Heq|Hne].
    - rewrite (Hall k0 (or_introl eq_refl) Heq). destruct c; [|reflexivity].
      rewrite <- Heq. apply lookup_insert_eq.
    - destruct (contrib k0); [|reflexivity]. apply lookup_insert_ne. exact Hne. }
  destruct (decide (Exists (fun k => name_of k = name) ks)) as [He|Hne].
  - apply Exists_exists in He as (k & Hin & Hk).
    rewrite IH.
    + destruct c; [reflexivity|]. rewrite Hstep.
      destruct (decide (name_of k0 = name)); reflexivity.
    + exists k. split; [apply list_elem_of_In|]; assumption.
    + intros k' Hin'. apply Hall. right. exact Hin'.
  - rewrite fold_insert_untouched.
    + rewrite Hstep. destruct (decide (name_of k0 = name)) as [_|Hn0]; [reflexivity|].
      exfalso. destruct Hex as (k & [<-|Hin] & Hk); [exact (Hn0 Hk)|].
      apply Hne, Exists_exists. exists k. split; [apply list_elem_of_In|]; assumption.
    + intros k Hin Hk. exfalso. apply Hne, Exists_exists.
      exists k. split; [apply list_elem_of_In|]; assumption.
Qed.
End FoldAgree.

Lemma normalizeOperations_fold (r : Edge.Request) :
  Edge.normalizeOperations r =
  fold_left (insert_contribution JS.toLowerCase (contribution r))
    (Edge.keys (Edge.querystring r)) ∅.
Proof.
  unfold Edge.normalizeOperations.
  generalize (∅ : gmap string string).
  induction (Edge.keys (Edge.querystring r)) as [|k ks IH]; intros m; [reflexivity|].
  cbn [fold_left]. rewrite normalize_step_contribution. apply IH.
Qed.

Lemma prop_In_keys (q : list (string * string)) (k v : string) :
  Edge.prop q k = Some v -> In k (Edge.keys q).
Proof.
  induction q as [|[k0 v0] q IH]; [discriminate|]. cbn.
  destruct (String.eqb_spec k0 k); [left; assumption|right; auto].
Qed.

(** The binding of an operation when one query parameter carries it. *)
Lemma normalizeOperations_single (r : Edge.Request) (name k v : string) :
  Edge.prop (Edge.querystring r) k = Some v ->
  JS.toLowerCase k = name ->
  (forall k', In k' (Edge.keys (Edge.querystring r)) -> JS.toLowerCase k' = name -> k' = k) ->
  Edge.normalizeOperations r !! name = contribution r k.
Proof.
  intros Hv Hk Huniq. rewrite normalizeOperations_fold.
  rewrite (fold_insert_agree _ _ _ _ name (contribution r k)).
  - destruct (contribution r k); [reflexivity|apply lookup_empty].
  - exists k. split; [exact (prop_In_keys _ _ _ Hv)|exact Hk].
  - intros k' Hin Hk'. rewrite (Huniq k' Hin Hk'). reflexivity.
Qed.

Lemma Z_toString_truthy (n : Z) : JS.truthy (JS.Z_toString n) = true.
Proof.
  unfold JS.Z_toString. destruct (n <? 0); [reflexivity|].
  destruct (Z.to_nat (Z.log2 n)); cbn [JS.decimal_digits]; [reflexivity|].
  destruct (n / 10 =? 0); [reflexivity|].
  generalize (n / 10).
  generalize (String (JS.digit_char (n mod 10)) "").
  induction n0 as [|f IH]; intros acc z; cbn [JS.decimal_digits]; [reflexivity|].
  destruct (z / 10 =? 0); [reflexivity|apply IH].
Qed.

Lemma formatFound_In (l : list string) (v : string) :
  Edge.formatFound l v = true -> In v l.
Proof.
  induction l as [|f l IH]; [discriminate|]. cbn.
  destruct (String.eqb_spec f v); [left; assumption|right; auto].
Qed.

Lemma negotiated_format_cases (accept : option string) :
  In (negotiated_format accept) ["avif"; "webp"; "jpeg"].
Proof.
  unfold negotiated_format. destruct accept as [a|]; [|cbn; auto].
  destruct (JS.includes a "avif"); [cbn; auto|].
  destruct (JS.includes a "webp"); cbn; auto.
Qed.

(** A contribution is a non-empty value for one of the four operations. *)
Lemma contribution_Some (r : Edge.Request) (k s : string) :
  contribution r k = Some s ->
  In (JS.toLowerCase k) operation_names /\ JS.truthy s = true.
Proof.
  unfold contribution, kept_value.
  destruct (String.eqb k "url"); [discriminate|].
  set (value := default "" _).
  destruct (String.eqb_spec (JS.toLowerCase k) "format") as [->|_].
  { unfold resolved_format.
    destruct (Edge.formatFound _ _) eqn:Hf; [|discriminate].
    intros [= <-]. split; [cbn; auto|].
    destruct (String.eqb _ "auto").
    - destruct (negotiated_format_cases (accept_header r)) as [<-|[<-|[<-|[]]]]; reflexivity.
    - apply formatFound_In in Hf.
      cbn in Hf. repeat destruct Hf as [<-|Hf]; try reflexivity. destruct Hf. }
  destruct (String.eqb_spec (JS.toLowerCase k) "width") as [->|_].
  { unfold bounded_dimension. destruct (JS.parseInt value); [discriminate|].
    destruct (_ && _); [|discriminate]. intros [= <-].
    split; [cbn; auto|apply Z_toString_truthy]. }
  destruct (String.eqb_spec (JS.toLowerCase k) "height") as [->|_].
  { unfold bounded_dimension. destruct (JS.parseInt value); [discriminate|].
    destruct (_ && _); [|discriminate]. intros [= <-].
    split; [cbn; auto|apply Z_toString_truthy]. }
  destruct (String.eqb_spec (JS.toLowerCase k) "quality") as [->|_]; [|discriminate].
  unfold clamped_quality. destruct (JS.parseInt value); [discriminate|].
  destruct (0 <? z); [|discriminate]. intros [= <-].
  split; [cbn; auto|apply Z_toString_truthy].
Qed.

Lemma normalizeOperations_Some (r : Edge.Request) (name s : string) :
  Edge.normalizeOperations r !! name = Some s ->
  exists k, In k (Edge.keys (Edge.querystring r)) /\ JS.toLowerCase k = name /\
            contribution r k = Some s.
Proof.
  rewrite normalizeOperations_fold. intros H.
  apply fold_insert_origin in H as [H|H]; [|exact H].
  rewrite lookup_empty in H. discriminate.
Qed.

Lemma normalizeOperations_invariant (r : Edge.Request) (name s : string) :
  Edge.normalizeOperations r !! name = Some s ->
  In name operation_names /\ JS.truthy s = true.
Proof.
  intros H. apply normalizeOperations_Some in H as (k & _ & <- & Hc).
  exact (contribution_Some r k s Hc).
Qed.

(** ** The canonical path *)

Lemma push_operation_serialized (ops : gmap string string) (name : string) (array : list string) :
  (forall s, ops !! name = Some s -> JS.truthy s = true) ->
  Edge.push_operation ops name array = array ++ serialized name (ops !! name).
Proof.
  intros H. unfold Edge.push_operation, serialized.
  destruct (ops !! name) as [v|]; [|symmetry; apply app_nil_r].
  rewrite (H v eq_refl). reflexivity.
Qed.

Lemma operationsSuffix_canonical (ops : gmap string string) :
  (forall name s, ops !! name = Some s -> In name operation_names /\ JS.truthy s = true) ->
  Edge.operationsSuffix ops =
  canonical_suffix (ops !! "format") (ops !! "quality") (ops !! "width") (ops !! "height").
Proof.
  intros Hinv. unfold Edge.operationsSuffix.
  rewrite !push_operation_serialized by (intros s Hs; exact (proj2 (Hinv _ _ Hs))).
  unfold canonical_suffix.
  destruct (decide (ops = ∅)) as [->|Hne].
  - rewrite map_size_empty, !lookup_empty. reflexivity.
  - assert (Hsize : (0 < size ops)%nat).
    { destruct (size ops) eqn:Hs; [|lia]. apply map_size_empty_iff in Hs. contradiction. }
    rewrite bool_decide_eq_true_2 by exact Hsize.
    destruct (ops !! "format") as [f|] eqn:Hf, (ops !! "quality") as [q|] eqn:Hq,
             (ops !! "width") as [w|] eqn:Hw, (ops !! "height") as [h|] eqn:Hh;
      try reflexivity.
    exfalso. apply Hne. apply map_eq. intros name. rewrite lookup_empty.
    destruct (ops !! name) as [s|] eqn:Hs; [|reflexivity].
    destruct (Hinv name s Hs) as [Hin _]. cbn in Hin.
    destruct Hin as [<-|[<-|[<-|[<-|[]]]]]; congruence.
Qed.

Lemma match_http_url_truthy (u : string) :
  JS.match_http_url (JS.units u) = true -> JS.truthy u = true.
Proof. destruct u; [discriminate|reflexivity]. Qed.

(** The rewritten request of a request that passes the checks. *)
Lemma handler_rewrites (r : Edge.Request) (u : string) :
  JS.starts_with "/proxy/" (Edge.uri r) = false ->
  Edge.prop (Edge.querystring r) "url" = Some u ->
  JS.match_http_url (JS.units u) = true ->
  Edge.handler r =
  Edge.Forward {| Edge.method := Edge.method r;
                  Edge.uri := canonical_path u (Edge.normalizeOperations r);
                  Edge.querystring := [];
                  Edge.headers := Edge.headers r |}.
Proof.
  intros Hp Hu Hm. unfold Edge.handler, canonical_path.
  rewrite indexOf_zero, Hp, Hu, (match_http_url_truthy u Hm), Hm. cbn [negb].
  rewrite operationsSuffix_canonical by apply normalizeOperations_invariant.
  reflexivity.
Qed.

Lemma prop_In (q : list (string * string)) (k v : string) :
  NoDup (Edge.keys q) -> In (k, v) q -> Edge.prop q k = Some v.
Proof.
  induction q as [|[k0 v0] q IH]; intros Hnd Hin; [destruct Hin|].
  cbn in Hnd. apply NoDup_cons in Hnd as [Hnot Hnd]. cbn.
  destruct Hin as [[= -> ->]|Hin].
  - rewrite String.eqb_refl. reflexivity.
  - destruct (String.eqb_spec k0 k) as [->|_]; [|auto].
    exfalso. apply Hnot, list_elem_of_In. change k with (fst (k, v)). apply in_map, Hin.
Qed.

Lemma prop_Permutation (q q' : list (string * string)) (k : string) :
  NoDup (Edge.keys q) -> Permutation q q' -> Edge.prop q k = Edge.prop q' k.
Proof.
  intros Hnd Hperm.
  assert (Hnd' : NoDup (Edge.keys q')).
  { unfold Edge.keys. rewrite <- Hperm. exact Hnd. }
  destruct (Edge.prop q k) as [v|] eqn:Hv.
  - symmetry. apply prop_In; [exact Hnd'|].
    rewrite <- Hperm. clear - Hv. induction q as [|[k0 v0] q IH]; [discriminate|].
    cbn in Hv. destruct (String.eqb_spec k0 k) as [->|_]; [left; congruence|right; auto].
  - destruct (Edge.prop q' k) as [v'|] eqn:Hv'; [|reflexivity].
    assert (Hin : In (k, v') q).
    { rewrite Hperm. clear - Hv'. induction q' as [|[k0 v0] q' IH]; [discriminate|].
      cbn in Hv'. destruct (String.eqb_spec k0 k) as [->|_]; [left; congruence|right; auto]. }
    rewrite (prop_In q k v' Hnd Hin) in Hv. discriminate.
Qed.

Lemma NoDup_map_inv {A B : Type} (f : A -> B) (l : list A) : NoDup (map f l) -> NoDup l.
Proof.
  induction l as [|x l IH]; cbn; intros H; [constructor|].
  apply NoDup_cons in H as [Hx Hl]. apply NoDup_cons. split; [|auto].
  intros Hin. apply Hx. apply list_elem_of_In, in_map, list_elem_of_In, Hin.
Qed.

(** Reordering the query parameters does not change the operation set,
    as long as no two parameter names differ by case only. *)
Lemma normalizeOperations_Permutation (r1 r2 : Edge.Request) :
  Edge.headers r1 = Edge.headers r2 ->
  Permutation (Edge.querystring r1) (Edge.querystring r2) ->
  NoDup (map JS.toLowerCase (Edge.keys (Edge.querystring r1))) ->
  Edge.normalizeOperations r1 = Edge.normalizeOperations r2.
Proof.
  intros Hh Hperm Hnd.
  assert (Hkeys : Permutation (Edge.keys (Edge.querystring r1)) (Edge.keys (Edge.querystring r2))).
  { unfold Edge.keys. rewrite Hperm. reflexivity. }
  assert (Hnd2 : NoDup (map JS.toLowerCase (Edge.keys (Edge.querystring r2)))).
  { rewrite <- Hkeys. exact Hnd. }
  assert (Hc : forall k, contribution r1 k = contribution r2 k).
  { intros k. unfold contribution, accept_header. rewrite Hh.
    rewrite (prop_Permutation _ _ k (NoDup_map_inv _ _ Hnd) Hperm). reflexivity. }
  apply map_eq. intros name. rewrite !normalizeOperations_fold.
  destruct (decide (Exists (fun k => JS.toLowerCase k = name) (Edge.keys (Edge.querystring r1))))
    as [He|Hne].
  - apply Exists_exists in He as (k & Hin & <-). apply list_elem_of_In in Hin.
    rewrite fold_insert_unique by assumption.
    rewrite fold_insert_unique; [apply Hc|exact Hnd2|].
    apply list_elem_of_In. rewrite <- Hkeys. apply list_elem_of_In, Hin.
  - rewrite !fold_insert_absent; [reflexivity| |].
    + intros k Hin Hk. apply Hne, Exists_exists. exists k. split; [|exact Hk].
      rewrite Hkeys. apply list_elem_of_In, Hin.
    + intros k Hin Hk. apply Hne, Exists_exists. exists k. split; [|exact Hk].
      apply list_elem_of_In, Hin.
Qed.

(** C1. Two requests for the same url whose surviving format, quality,
    width and height agree are rewritten to the same path, whatever the
    order of their query parameters: the encoded url followed by the
    operations present, serialized in the order format, quality, width,
    height and joined by commas, or by [original] when none survives. *)
Theorem canonical_path_deterministic (r1 r2 : Edge.Request) (u : string)
    (Hp1 : JS.starts_with "/proxy/" (Edge.uri r1) = false)
    (Hp2 : JS.starts_with "/proxy/" (Edge.uri r2) = false)
    (Hu1 : Edge.prop (Edge.querystring r1) "url" = Some u)
    (Hu2 : Edge.prop (Edge.querystring r2) "url" = Some u)
    (Hm : JS.match_http_url (JS.units u) = true)
    (Heff : Forall (fun name => Edge.normalizeOperations r1 !! name =
                                Edge.normalizeOperations r2 !! name) operation_names) :
  exists r1' r2',
    Edge.handler r1 = Edge.Forward r1' /\
    Edge.handler r2 = Edge.Forward r2' /\
    Edge.uri r1' = Edge.uri r2' /\
    Edge.uri r1' =
      "/proxy/" +:+ Edge.encodeUrl u +:+ "/" +:+
      canonical_suffix (Edge.normalizeOperations r1 !! "format")
                       (Edge.normalizeOperations r1 !! "quality")
                       (Edge.normalizeOperations r1 !! "width")
                       (Edge.normalizeOperations r1 !! "height").
Proof.
  eexists _, _. split; [exact (handler_rewrites r1 u Hp1 Hu1 Hm)|].
  split; [exact (handler_rewrites r2 u Hp2 Hu2 Hm)|].
  split; [|reflexivity]. cbn [Edge.uri]. unfold canonical_path.
  unfold operation_names in Heff.
  apply Forall_cons in Heff as [-> Heff]. apply Forall_cons in Heff as [-> Heff].
  apply Forall_cons in Heff as [-> Heff]. apply Forall_cons in Heff as [-> _].
  reflexivity.
Qed.

Lemma canonical_path_deterministic_witness :
  exists r1' r2',
    Edge.handler request_a = Edge.Forward r1' /\
    Edge.handler request_b = Edge.Forward r2' /\
    Edge.uri r1' = Edge.uri r2' /\
    Edge.uri r1' =
      "/proxy/" +:+ Edge.encodeUrl example_url +:+ "/" +:+
      canonical_suffix (Edge.normalizeOperations request_a !! "format")
                       (Edge.normalizeOperations request_a !! "quality")
                       (Edge.normalizeOperations request_a !! "width")
                       (Edge.normalizeOperations request_a !! "height").
Proof.
  apply (canonical_path_deterministic request_a request_b example_url);
    try reflexivity.
  repeat constructor; vm_compute; reflexivity.
Defined.



Lemma lower_key_not_url (k name : string) :
  JS.toLowerCase k = name -> In name operation_names -> String.eqb k "url" = false.
Proof.
  intros Hk Hin. apply String.eqb_neq. intros ->. subst name.
  cbn in Hin. repeat destruct Hin as [Hin|Hin]; try discriminate. destruct Hin.
Qed.

Lemma bounded_dimension_Some (value s : string) :
  bounded_dimension value = Some s -> exists n, 0 < n <= 4000 /\ s = JS.Z_toString n.
Proof.
  unfold bounded_dimension. destruct (JS.parseInt value) as [|n]; [discriminate|].
  destruct (Z.ltb_spec 0 n); [|discriminate].
  destruct (Z.leb_spec n 4000); [|discriminate].
  intros [= <-]. exists n. split; [lia|reflexivity].
Qed.

Lemma clamped_quality_Some (value s : string) :
  clamped_quality value = Some s -> exists n, 0 < n <= 100 /\ s = JS.Z_toString n.
Proof.
  unfold clamped_quality. destruct (JS.parseInt value) as [|n]; [discriminate|].
  destruct (Z.ltb_spec 0 n); [|discriminate].
  intros [= <-]. exists (Z.min n 100). split; [lia|reflexivity].
Qed.

(** Whatever the query string, a surviving width or height is the decimal
    form of an integer of (0, 4000], and a surviving quality of one of
    (0, 100]. *)
Lemma surviving_value_bounds (r : Edge.Request) (name s : string) :
  In name ["width"; "height"; "quality"] ->
  Edge.normalizeOperations r !! name = Some s ->
  exists n, 0 < n <= (if String.eqb name "quality" then 100 else 4000) /\
            s = JS.Z_toString n.
Proof.
  intros Hname H. apply normalizeOperations_Some in H as (k & _ & Hk & Hc).
  unfold contribution in Hc. destruct (String.eqb k "url"); [discriminate|].
  rewrite Hk in Hc. unfold kept_value in Hc.
  cbn in Hname. destruct Hname as [<-|[<-|[<-|[]]]]; cbn [String.eqb Ascii.eqb Bool.eqb] in Hc |- *.
  - exact (bounded_dimension_Some _ _ Hc).
  - exact (bounded_dimension_Some _ _ Hc).
  - exact (clamped_quality_Some _ _ Hc).
Qed.

(** Whatever the query string, the surviving format is a concrete one. *)
Lemma surviving_format_concrete (r : Edge.Request) (s : string) :
  Edge.normalizeOperations r !! "format" = Some s ->
  In s ["jpeg"; "webp"; "avif"; "png"; "svg"; "gif"].
Proof.
  intros H. apply normalizeOperations_Some in H as (k & _ & Hk & Hc).
  unfold contribution in Hc. destruct (String.eqb k "url"); [discriminate|].
  rewrite Hk in Hc. unfold kept_value in Hc. cbn [String.eqb Ascii.eqb Bool.eqb] in Hc.
  unfold resolved_format in Hc.
  set (v := JS.toLowerCase (default "" (Edge.prop (Edge.querystring r) k))) in *.
  destruct (Edge.formatFound Edge.SUPPORTED_FORMATS v) eqn:Hf; [|discriminate].
  injection Hc as <-. destruct (String.eqb_spec v "auto") as [_|Hne].
  - destruct (negotiated_format_cases (accept_header r)) as [<-|[<-|[<-|[]]]]; cbn; auto.
  - apply formatFound_In in Hf. cbn in Hf |- *.
    destruct Hf as [Hf|Hf]; [congruence|]. intuition.
Qed.



(** C6. A width or height parameter survives normalization exactly when
    it parses as an integer [n] with [0 < n <= 4000]; a quality parameter
    survives exactly when it parses as an integer [n] with [0 < n], and is
    clamped to 100.  A value that survives is therefore the decimal form
    of an integer within these bounds.  Whatever the value, the request is
    rewritten and not refused.  At the boundaries: width 4000 is kept and
    4001 dropped, quality 101 becomes 100 and quality 0 is dropped. *)
Theorem dimension_and_quality_bounds (r : Edge.Request) (u name k v : string)
    (Hp : JS.starts_with "/proxy/" (Edge.uri r) = false)
    (Hu : Edge.prop (Edge.querystring r) "url" = Some u)
    (Hm : JS.match_http_url (JS.units u) = true)
    (Hname : In name ["width"; "height"; "quality"])
    (Hk : JS.toLowerCase k = name)
    (Hv : Edge.prop (Edge.querystring r) k = Some v)
    (Huniq : forall k', In k' (Edge.keys (Edge.querystring r)) ->
                        JS.toLowerCase k' = name -> k' = k) :
  Edge.normalizeOperations r !! name =
    match JS.parseInt v with
    | JS.Num n =>
        if String.eqb name "quality"
        then (if 0 <? n then Some (JS.Z_toString (Z.min n 100)) else None)
        else (if (0 <? n) && (n <=? 4000) then Some (JS.Z_toString n) else None)
    | JS.NaN => None
    end /\
  (forall s, Edge.normalizeOperations r !! name = Some s ->
             exists n, 0 < n <= (if String.eqb name "quality" then 100 else 4000) /\
                       s = JS.Z_toString n) /\
  (exists r', Edge.handler r = Edge.Forward r') /\
  rewritten_uri (req [("url", example_url); ("width", "4000")] None) =
    Some ("/proxy/" +:+ Edge.encodeUrl example_url +:+ "/width=4000") /\
  rewritten_uri (req [("url", example_url); ("width", "4001")] None) =
    Some ("/proxy/" +:+ Edge.encodeUrl example_url +:+ "/original") /\
  rewritten_uri (req [("url", example_url); ("quality", "101")] None) =
    Some ("/proxy/" +:+ Edge.encodeUrl example_url +:+ "/quality=100") /\
  rewritten_uri (req [("url", example_url); ("quality", "0")] None) =
    Some ("/proxy/" +:+ Edge.encodeUrl example_url +:+ "/original").
Proof.
  split.
  { rewrite (normalizeOperations_single r name k v Hv Hk Huniq).
    unfold contribution.
    rewrite (lower_key_not_url k name Hk)
      by (cbn in Hname |- *; destruct Hname as [<-|[<-|[<-|[]]]]; auto).
    rewrite Hk, Hv. cbn [default from_option id].
    unfold kept_value, bounded_dimension, clamped_quality.
    cbn in Hname. destruct Hname as [<-|[<-|[<-|[]]]]; cbn [String.eqb Ascii.eqb Bool.eqb];
      destruct (JS.parseInt v); reflexivity. }
  split; [intros s; apply surviving_value_bounds; exact Hname|].
  split; [eexists; exact (handler_rewrites r u Hp Hu Hm)|].
  repeat split; vm_compute; reflexivity.
Qed.

Lemma dimension_and_quality_bounds_witness :
  let r := req [("url", example_url); ("WIDTH", "4000px"); ("quality", "250")] None in
  Edge.normalizeOperations r !! "width" = Some "4000" /\
  (exists r', Edge.handler r = Edge.Forward r').
Proof.
  intros r.
  destruct (dimension_and_quality_bounds r example_url "width" "WIDTH" "4000px")
    as (H & _ & H' & _); try reflexivity.
  - cbn. auto.
  - intros k' Hin Hk'. cbn in Hin.
    destruct Hin as [<-|[<-|[<-|[]]]]; try reflexivity; discriminate.
  - split; [exact H|exact H'].
Defined.

(** * Properties of the origin stage *)

Lemma handler_computed (env : Origin.ProcessEnv) (w : Origin.World)
    (store : gmap string Origin.S3Object) (event : Origin.Event)
    (encodedUrl operationsPrefix : string) (imageUrl : JS.ustring)
    (transformedImage : Node.bytes) (contentType : string) :
  reaches_computed env w event encodedUrl operationsPrefix imageUrl transformedImage contentType ->
  Origin.handler env w store event =
  Origin.respond env w store encodedUrl operationsPrefix imageUrl transformedImage contentType
    (Origin.timing w).
Proof.
  intros (Hget & rest & p & body & ct & md & Hparts & Hops & Hdec & Hval & Hfetch & Hmd & Hbuf & Hct).
  unfold Origin.handler. fold (path_parts event).
  rewrite Hget, Hparts. cbn [negb String.eqb Ascii.eqb Bool.eqb].
  rewrite <- Hops, Hdec, Hval, Hfetch, Hmd, Hbuf, <- Hct. reflexivity.
Qed.

Lemma example_reaches_computed (bucket : option string) (size : string)
    (image : Node.bytes) (send_ok : bool) :
  reaches_computed (example_env bucket size) (example_world ["93.184.216.34"] image send_ok)
    example_event example_encoded "width=300" (JS.units example_url) image "image/jpeg".
Proof.
  split; [reflexivity|].
  eexists _, _, _, _, _. repeat split; reflexivity.
Qed.



(** C5, as the code has it.  When nothing is stored, because no bucket
    is configured or because the upload fails, the store is left as it
    was; the image is returned inline with status 200 when its byte
    length is within the maximal output size, and refused with status 413
    when it exceeds it. *)
Theorem unpersisted_inline_or_rejected (env : Origin.ProcessEnv) (w : Origin.World)
    (store : gmap string Origin.S3Object) (event : Origin.Event)
    (encodedUrl operationsPrefix : string) (imageUrl : JS.ustring)
    (transformedImage : Node.bytes) (contentType : string)
    (Hcomputed : reaches_computed env w event encodedUrl operationsPrefix imageUrl
                   transformedImage contentType)
    (Hunstored :
       Origin.S3_TRANSFORMED_IMAGE_BUCKET env = None \/
       Origin.S3_TRANSFORMED_IMAGE_BUCKET env = Some "" \/
       exists bucket,
         Origin.S3_TRANSFORMED_IMAGE_BUCKET env = Some bucket /\
         Origin.s3_send w
           (Origin.putImageCommand env bucket encodedUrl operationsPrefix imageUrl
              transformedImage contentType) = false) :
  snd (Origin.handler env w store event) = store /\
  fst (Origin.handler env w store event) =
    if too_big env transformedImage
    then Origin.Returned (Origin.sendError 413 "Requested transformed image is too big")
    else Origin.Returned
           {| Origin.statusCode := 200;
              Origin.body := Some (Node.Buffer_toString_base64 transformedImage);
              Origin.isBase64Encoded := true;
              Origin.headers :=
                [("Content-Type", contentType);
                 ("Cache-Control", Origin.TRANSFORMED_IMAGE_CACHE_TTL env);
                 ("Server-Timing", Origin.timing w)] |}.
Proof.
  rewrite (handler_computed _ _ _ _ _ _ _ _ _ Hcomputed).
  unfold Origin.respond. fold (too_big env transformedImage).
  destruct Hunstored as [->|[->|(bucket & -> & Hsend)]].
  - split; reflexivity.
  - split; reflexivity.
  - rewrite Hsend. destruct (JS.truthy bucket); split; reflexivity.
Qed.

Lemma unpersisted_inline_or_rejected_witness :
  let env := example_env (Some "transformed-images") "4700000" in
  let w := example_world ["93.184.216.34"] [1; 2; 3; 4; 5] false in
  snd (Origin.handler env w ∅ example_event) = ∅ /\
  fst (Origin.handler env w ∅ example_event) =
    Origin.Returned
      {| Origin.statusCode := 200;
         Origin.body := Some "AQIDBAU=";
         Origin.isBase64Encoded := true;
         Origin.headers :=
           [("Content-Type", "image/jpeg");
            ("Cache-Control", "max-age=31622400");
            ("Server-Timing", "img-download;dur=12,img-transform;dur=34")] |}.
Proof.
  intros env w.
  refine (unpersisted_inline_or_rejected env w ∅ example_event
            example_encoded "width=300" (JS.units example_url) [1; 2; 3; 4; 5] "image/jpeg"
            (example_reaches_computed _ _ _ _) _).
  right. right. exists "transformed-images". split; reflexivity.
Defined.

(** Where C5 as it is stated does not hold.  Without a bucket, an image
    above the maximal output size is not returned inline: the answer is
    an error, status 413. *)
Lemma disabled_storage_oversize_rejected :
  let env := example_env None "4" in
  let w := example_world ["93.184.216.34"] [1; 2; 3; 4; 5] true in
  exists r,
    Origin.handler env w ∅ example_event = (Origin.Returned r, ∅) /\
    r = Origin.sendError 413 "Requested transformed image is too big" /\
    Origin.statusCode r <> 200.
Proof.
  eexists. split; [vm_compute; reflexivity|]. split; [reflexivity|]. discriminate.
Qed.

(** ** Error responses *)








(** ** Printing and parsing integers *)

Ltac digit_cases d :=
  let H := fresh in
  assert (H : d = 0 \/ d = 1 \/ d = 2 \/ d = 3 \/ d = 4 \/ d = 5 \/ d = 6 \/ d = 7 \/
              d = 8 \/ d = 9) by lia;
  repeat (destruct H as [H|H]; [subst d|]); [..|subst d].

Lemma digit_value_digit_char (d : Z) :
  0 <= d <= 9 -> JS.digit_value 10 (JS.digit_char d) = Some d.
Proof. intros Hd. digit_cases d; reflexivity. Qed.

(** A digit is neither white space, nor a sign, nor the [x] of a radix
    prefix, nor a separator of the operations. *)
Lemma digit_char_plain (d : Z) :
  0 <= d <= 9 ->
  JS.is_white_space (JS.digit_char d) = false /\
  Ascii.eqb (JS.digit_char d) "-"%char = false /\
  Ascii.eqb (JS.digit_char d) "+"%char = false /\
  Ascii.eqb (JS.digit_char d) "x"%char = false /\
  Ascii.eqb (JS.digit_char d) "X"%char = false /\
  Ascii.eqb (JS.digit_char d) ","%char = false /\
  Ascii.eqb (JS.digit_char d) "="%char = false.
Proof. intros Hd. digit_cases d; repeat split; reflexivity. Qed.

Lemma parse_decimal_digits (f : nat) (n : Z) (acc : string) :
  0 <= n < 10 ^ (Z.of_nat f + 1) ->
  JS.parse_digits 10 (JS.decimal_digits f n acc) None = JS.parse_digits 10 acc (Some n).
Proof.
  revert n acc. induction f as [|f IH]; intros n acc Hn; cbn [JS.decimal_digits].
  - change (10 ^ (Z.of_nat 0 + 1)) with 10 in Hn.
    cbn [JS.parse_digits]. rewrite Z.mod_small by lia.
    rewrite digit_value_digit_char by lia. cbn. reflexivity.
  - destruct (Z.eqb_spec (n / 10) 0) as [H0|H0].
    + assert (n < 10) by (apply Z.div_small_iff in H0; lia).
      cbn [JS.parse_digits]. rewrite Z.mod_small by lia.
      rewrite digit_value_digit_char by lia. cbn. reflexivity.
    + rewrite IH.
      * cbn [JS.parse_digits].
        rewrite digit_value_digit_char by (pose proof (Z.mod_pos_bound n 10); lia).
        cbn [default from_option id]. do 2 f_equal. pose proof (Z.div_mod n 10). lia.
      * replace (Z.of_nat (S f) + 1) with (Z.succ (Z.of_nat f + 1)) in Hn by lia.
        rewrite Z.pow_succ_r in Hn by lia.
        split; [apply Z.div_pos; lia|].
        apply Z.div_lt_upper_bound; lia.
Qed.

(** The digits begin with a digit, followed by the accumulator or by
    another digit. *)
Lemma decimal_digits_head (f : nat) (n : Z) (acc : string) :
  0 <= n ->
  exists d rest,
    JS.decimal_digits f n acc = String (JS.digit_char d) rest /\ 0 <= d <= 9 /\
    (rest = acc \/ exists d' rest', rest = String (JS.digit_char d') rest' /\ 0 <= d' <= 9).
Proof.
  revert n acc. induction f as [|f IH]; intros n acc Hn; cbn [JS.decimal_digits].
  - exists (n mod 10), acc. split; [reflexivity|].
    split; [pose proof (Z.mod_pos_bound n 10); lia|left; reflexivity].
  - destruct (n / 10 =? 0).
    + exists (n mod 10), acc. split; [reflexivity|].
      split; [pose proof (Z.mod_pos_bound n 10); lia|left; reflexivity].
    + destruct (IH (n / 10) (String (JS.digit_char (n mod 10)) acc))
        as (d & rest & -> & Hd & Hrest); [apply Z.div_pos; lia|].
      exists d, rest. split; [reflexivity|]. split; [exact Hd|].
      right. destruct Hrest as [->|Hrest]; [|exact Hrest].
      exists (n mod 10), acc. split; [reflexivity|]. pose proof (Z.mod_pos_bound n 10); lia.
Qed.

Lemma log2_fuel (n : Z) : 0 <= n -> n < 10 ^ (Z.of_nat (Z.to_nat (Z.log2 n)) + 1).
Proof.
  intros Hn. rewrite Z2Nat.id by apply Z.log2_nonneg.
  destruct (Z.eq_dec n 0) as [->|Hne]; [reflexivity|].
  apply Z.lt_le_trans with (2 ^ (Z.log2 n + 1)).
  - replace (Z.log2 n + 1) with (Z.succ (Z.log2 n)) by lia.
    apply Z.log2_spec. lia.
  - apply Z.pow_le_mono_l. pose proof (Z.log2_nonneg n). lia.
Qed.

(** Parsing the decimal form of a natural number gives the number back. *)
Lemma parseInt_Z_toString (n : Z) : 0 <= n -> JS.parseInt (JS.Z_toString n) = JS.Num n.
Proof.
  intros Hn. unfold JS.Z_toString. rewrite (proj2 (Z.ltb_ge n 0)) by lia.
  set (f := Z.to_nat (Z.log2 n)).
  pose proof (parse_decimal_digits f n "" (conj Hn (log2_fuel n Hn))) as Hparse.
  destruct (decimal_digits_head f n "" Hn) as (d & rest & Heq & Hd & Hrest).
  rewrite Heq in Hparse |- *.
  destruct (digit_char_plain d Hd) as (Hws & Hminus & Hplus & _).
  unfold JS.parseInt. cbn [JS.skip_white_space]. rewrite Hws.
  cbn [JS.strip_sign]. rewrite Hminus, Hplus.
  assert (Hradix : JS.strip_radix (String (JS.digit_char d) rest)
                   = (10, String (JS.digit_char d) rest)).
  { destruct Hrest as [->|(d' & rest' & -> & Hd')]; [reflexivity|].
    cbn [JS.strip_radix].
    destruct (digit_char_plain d' Hd') as (_ & _ & _ & -> & -> & _).
    rewrite andb_false_r. reflexivity. }
  rewrite Hradix, Hparse. reflexivity.
Qed.

(** ** Splitting *)

Lemma split_no_char (sep : ascii) (s : string) :
  has_char sep s = false -> Node.split sep s = [s].
Proof.
  induction s as [|x s IH]; [reflexivity|]. cbn [has_char Node.split].
  intros H. apply orb_false_elim in H as [-> H]. rewrite (IH H). reflexivity.
Qed.

Lemma split_app (sep : ascii) (a b : string) :
  has_char sep a = false -> Node.split sep (a +:+ String sep b) = a :: Node.split sep b.
Proof.
  induction a as [|x a IH]; simpl.
  - intros _. rewrite Ascii.eqb_refl. reflexivity.
  - intros H. apply orb_false_elim in H as [-> H]. rewrite (IH H). reflexivity.
Qed.





(** ** Operations that did not go through the normalizer *)

Lemma entry_pair (k v : string) :
  has_char "="%char k = false -> has_char "="%char v = false ->
  Origin.entry (k +:+ String "="%char v) = (k, Some v).
Proof.
  intros Hk Hv. unfold Origin.entry.
  rewrite split_app by exact Hk. rewrite split_no_char by exact Hv. reflexivity.
Qed.





(** ** The origin guard *)

Lemma blocked_private_ipv4 (a b c d : Z) :
  private_ipv4 a b -> Origin.blocked (dotted a b c d) = true.
Proof.
  unfold dotted.
  intros [-> | [[-> Hb] | [[-> ->] | [-> | [[-> ->] | ->]]]]].
  - reflexivity.
  - assert (H : b = 16 \/ b = 17 \/ b = 18 \/ b = 19 \/ b = 20 \/ b = 21 \/ b = 22 \/
                b = 23 \/ b = 24 \/ b = 25 \/ b = 26 \/ b = 27 \/ b = 28 \/ b = 29 \/
                b = 30 \/ b = 31) by lia.
    repeat (destruct H as [->|H]; [reflexivity|]). subst b. reflexivity.
  - reflexivity.
  - reflexivity.
  - reflexivity.
  - reflexivity.
Qed.

Lemma blocked_guarded_address (ip : string) :
  guarded_address ip -> Origin.blocked ip = true.
Proof.
  intros [(a & b & c & d & -> & H)|[->| ->]];
    [exact (blocked_private_ipv4 a b c d H)|reflexivity|reflexivity].
Qed.

Lemma existsb_In {A : Type} (f : A -> bool) (l : list A) (x : A) :
  In x l -> f x = true -> existsb f l = true.
Proof. intros Hin Hf. apply existsb_exists. exists x. split; assumption. Qed.

(** C3, as the code has it.  A path segment that does not decode to a
    URL matching [^https?://.+] is refused with status 400 at the decoding
    step.  A decoded URL that does not parse is refused with status 403.
    One whose host resolves to at least one address of 10.0.0.0/8,
    172.16.0.0/12, 192.168.0.0/16, 127.0.0.0/8, 169.254.0.0/16 or
    0.0.0.0/8, or to the IPv6 loopback or unspecified address, is refused
    with status 403 whatever the remote server would answer, the store
    being left as it was.  When both DNS resolutions fail the guard does
    not reject an http or https URL. *)
Theorem origin_guard (env : Origin.ProcessEnv) (w : Origin.World)
    (store : gmap string Origin.S3Object) (event : Origin.Event)
    (encodedUrl : string) (rest : list string)
    (Hget : Origin.is_GET event = true)
    (Hparts : path_parts event = "proxy" :: encodedUrl :: rest) :
  match Origin.decodeUrl encodedUrl with
  | None =>
      Origin.handler env w store event =
      (Origin.Returned (Origin.sendError 400 "Failed to decode URL"), store)
  | Some imageUrl =>
      match Origin.parseURL w imageUrl with
      | inr message =>
          Origin.handler env w store event =
          (Origin.Returned (Origin.sendError 403 ("URL validation failed: " +:+ message)), store)
      | inl parsedUrl =>
          ((exists ip, In ip (resolved_addresses w parsedUrl) /\ guarded_address ip) ->
           exists message,
             Origin.handler env w store event =
             (Origin.Returned (Origin.sendError 403 ("URL validation failed: " +:+ message)),
              store)) /\
          (Origin.resolve4 w (Origin.hostname parsedUrl) = None ->
           Origin.resolve6 w (Origin.hostname parsedUrl) = None ->
           In (Origin.protocol parsedUrl) ["http:"; "https:"] ->
           Origin.validateUrl w imageUrl = inl parsedUrl)
      end
  end.
Proof.
  unfold Origin.handler. fold (path_parts event).
  rewrite Hget, Hparts. cbn [negb String.eqb Ascii.eqb Bool.eqb].
  destruct (Origin.decodeUrl encodedUrl) as [imageUrl|]; [|reflexivity].
  unfold Origin.validateUrl.
  destruct (Origin.parseURL w imageUrl) as [parsedUrl|message]; [|reflexivity].
  split.
  - intros (ip & Hin & Hip).
    destruct (negb _); [eexists; reflexivity|].
    fold (resolved_addresses w parsedUrl).
    rewrite (existsb_In Origin.blocked _ ip Hin (blocked_guarded_address ip Hip)).
    eexists; reflexivity.
  - intros -> -> Hproto.
    assert (Hp : existsb (String.eqb (Origin.protocol parsedUrl)) ["http:"; "https:"] = true).
    { cbn in Hproto |- *. destruct Hproto as [<-|[<-|[]]]; reflexivity. }
    rewrite Hp. reflexivity.
Qed.

Lemma origin_guard_witness :
  let env := example_env (Some "transformed-images") "4700000" in
  let w := example_world ["169.254.169.254"] [1; 2; 3] true in
  exists message,
    Origin.handler env w ∅ example_event =
    (Origin.Returned (Origin.sendError 403 ("URL validation failed: " +:+ message)), ∅).
Proof.
  intros env w.
  refine (proj1 (origin_guard env w ∅ example_event example_encoded ["width=300"]
                   eq_refl eq_refl) _).
  exists "169.254.169.254". split; [left; reflexivity|].
  left. exists 169, 254, 169, 254. split; [reflexivity|].
  right. right. right. right. left. split; reflexivity.
Defined.

(** Where C3 as it is stated does not hold.  A path segment that decodes
    to an ftp URL is refused with status 400, not 403.  And the patterns
    of the guard stop short of the ranges named beside them: [/^224\./] and
    [/^240\./] match one eighth-bit prefix each of 224.0.0.0/4 and
    240.0.0.0/4, and [fe80:], [fc00:], [fd00:], [ff00:] one prefix each of
    the IPv6 link-local, unique-local and multicast ranges, so a host
    that resolves to 225.0.0.1 is fetched. *)
Lemma origin_guard_counterexample :
  let env := example_env None "4700000" in
  (exists r,
     Origin.decodeUrl "ZnRwOi8vZXhhbXBsZS5jb20vYS5qcGc" = None /\
     Node.Buffer_toString_utf8 (Node.Buffer_from_base64 "ZnRwOi8vZXhhbXBsZS5jb20vYS5qcGc")
       = JS.units "ftp://example.com/a.jpg" /\
     Origin.handler env (example_world ["93.184.216.34"] [1; 2; 3] true) ∅
       (get "/proxy/ZnRwOi8vZXhhbXBsZS5jb20vYS5qcGc/original") = (Origin.Returned r, ∅) /\
     Origin.statusCode r = 400) /\
  (exists r,
     Origin.handler env (example_world ["225.0.0.1"] [1; 2; 3] true) ∅ example_event
       = (Origin.Returned r, ∅) /\
     Origin.statusCode r = 200) /\
  Origin.blocked "225.0.0.1" = false /\
  Origin.blocked "241.0.0.1" = false /\
  Origin.blocked "fe90::1" = false /\
  Origin.blocked "fd12:3456:789a::1" = false /\
  Origin.blocked "ff02::1" = false.
Proof.
  intros env. split; [|split].
  - eexists. repeat split; vm_compute; reflexivity.
  - eexists. split; vm_compute; reflexivity.
  - repeat split; reflexivity.
Qed.

(** * The URL codec *)

Lemma code_range (c : ascii) : 0 <= JS.code c < 256.
Proof.
  unfold JS.code. pose proof (N_ascii_bounded c). lia.
Qed.

Lemma to_int32_small (z : Z) : - 2 ^ 31 <= z < 2 ^ 31 -> JS.to_int32 z = z.
Proof. intros H. unfold JS.to_int32. rewrite Z.mod_small; lia. Qed.

Lemma land_shiftl_low (x y k : Z) :
  0 <= k -> 0 <= y < 2 ^ k -> Z.land (x * 2 ^ k) y = 0.
Proof.
  intros Hk Hy. apply Z.bits_inj'. intros n Hn.
  rewrite Z.land_spec, Z.bits_0.
  destruct (Z.lt_ge_cases n k) as [Hlt|Hge].
  - rewrite Z.mul_pow2_bits_low by lia. reflexivity.
  - rewrite <- (Z.mod_small y (2 ^ k)) by lia.
    rewrite Z.mod_pow2_bits_high by lia. apply andb_false_r.
Qed.

Lemma lor_shiftl_add (x y k : Z) :
  0 <= k -> 0 <= y < 2 ^ k -> Z.lor (x * 2 ^ k) y = x * 2 ^ k + y.
Proof.
  intros Hk Hy. pose proof (land_shiftl_low x y k Hk Hy) as H.
  rewrite <- Z.lxor_lor by exact H. symmetry. apply Z.add_nocarry_lxor. exact H.
Qed.

(** The 24 bits assembled from three bytes. *)
Lemma bitmap_bytes (a b c : Z) :
  0 <= a < 256 -> 0 <= b < 256 -> 0 <= c < 256 ->
  JS.bor (JS.bor (JS.shl a 16) (JS.shl b 8)) c = a * 65536 + b * 256 + c.
Proof.
  intros Ha Hb Hc. unfold JS.bor, JS.shl.
  rewrite (to_int32_small a), (to_int32_small b), (to_int32_small c) by lia.
  rewrite !Z.shiftl_mul_pow2 by lia.
  rewrite !(to_int32_small (a * 2 ^ 16)), !(to_int32_small (b * 2 ^ 8)) by lia.
  rewrite (lor_shiftl_add a (b * 2 ^ 8) 16) by lia.
  rewrite to_int32_small by lia.
  replace (a * 2 ^ 16 + b * 2 ^ 8) with ((a * 256 + b) * 2 ^ 8) by lia.
  rewrite lor_shiftl_add by lia. lia.
Qed.

Lemma sextet (x k : Z) :
  0 <= x < 2 ^ 24 -> 0 <= k -> JS.band (JS.shr x k) 63 = x / 2 ^ k mod 64.
Proof.
  intros Hx Hk. unfold JS.band, JS.shr.
  rewrite (to_int32_small x) by lia. rewrite Z.shiftr_div_pow2 by lia.
  assert (0 <= x / 2 ^ k <= x).
  { split; [apply Z.div_pos; lia|].
    apply Z.div_le_upper_bound; [lia|]. pose proof (Z.pow_pos_nonneg 2 k). nia. }
  rewrite to_int32_small by lia.
  change (JS.to_int32 63) with (Z.ones 6). rewrite Z.land_ones by lia. reflexivity.
Qed.

Lemma sextet_0 (x : Z) : 0 <= x < 2 ^ 24 -> JS.band x 63 = x mod 64.
Proof.
  intros Hx. unfold JS.band. rewrite to_int32_small by lia.
  change (JS.to_int32 63) with (Z.ones 6). rewrite Z.land_ones by lia. reflexivity.
Qed.

(** Every position of the alphabet holds one character, which the decoder
    maps back to the position and which is not the padding character. *)
Lemma charAt_base64chars (k : Z) :
  0 <= k < 64 ->
  exists ch, JS.charAt Edge.base64chars k = String ch "" /\
             Node.unbase64 ch = Some k /\ Ascii.eqb ch "="%char = false.
Proof.
  intros Hk.
  assert (H : exists n, (n < 64)%nat /\ k = Z.of_nat n) by (exists (Z.to_nat k); lia).
  destruct H as (n & Hn & ->). clear Hk.
  do 64 (destruct n as [|n]; [eexists; split; [|split]; reflexivity|]).
  lia.
Qed.

Lemma sextets_of_bitmap (a b c : Z) :
  0 <= a < 256 -> 0 <= b < 256 -> 0 <= c < 256 ->
  let x := a * 65536 + b * 256 + c in
  x / 2 ^ 18 mod 64 = a / 4 /\
  x / 2 ^ 12 mod 64 = a mod 4 * 16 + b / 16 /\
  x / 2 ^ 6 mod 64 = b mod 16 * 4 + c / 64 /\
  x mod 64 = c mod 64.
Proof.
  intros Ha Hb Hc x. subst x.
  change (2 ^ 18) with 262144. change (2 ^ 12) with 4096. change (2 ^ 6) with 64.
  repeat split; Z.div_mod_to_equations; lia.
Qed.

Lemma bytes_of_sextet_values (a b c : Z) :
  0 <= a < 256 -> 0 <= b < 256 -> 0 <= c < 256 ->
  a / 4 * 4 + (a mod 4 * 16 + b / 16) / 16 = a /\
  (a mod 4 * 16 + b / 16) mod 16 * 16 + (b mod 16 * 4 + c / 64) / 4 = b /\
  (b mod 16 * 4 + c / 64) mod 4 * 64 + c mod 64 = c.
Proof.
  intros Ha Hb Hc. repeat split; Z.div_mod_to_equations; lia.
Qed.

(** The characters a turn of the encoding loop produces, as the decoder
    reads them. *)
Lemma encode_chunk_chars (a b c : Z) :
  0 <= a < 256 -> 0 <= b < 256 -> 0 <= c < 256 ->
  exists c1 c2 c3 c4,
    (forall n, Edge.encode_chunk a b c n =
       String c1 (String c2
         ((if 1 <? n then String c3 "" else "=") +:+
          (if 2 <? n then String c4 "" else "=")))) /\
    Node.unbase64 c1 = Some (a / 4) /\
    Node.unbase64 c2 = Some (a mod 4 * 16 + b / 16) /\
    Node.unbase64 c3 = Some (b mod 16 * 4 + c / 64) /\
    Node.unbase64 c4 = Some (c mod 64) /\
    Ascii.eqb c1 "="%char = false /\ Ascii.eqb c2 "="%char = false /\
    Ascii.eqb c3 "="%char = false /\ Ascii.eqb c4 "="%char = false.
Proof.
  intros Ha Hb Hc.
  destruct (sextets_of_bitmap a b c Ha Hb Hc) as (H1 & H2 & H3 & H4).
  assert (Hx : 0 <= a * 65536 + b * 256 + c < 2 ^ 24) by lia.
  destruct (charAt_base64chars (a / 4)) as (c1 & E1 & U1 & P1);
    [Z.div_mod_to_equations; lia|].
  destruct (charAt_base64chars (a mod 4 * 16 + b / 16)) as (c2 & E2 & U2 & P2);
    [Z.div_mod_to_equations; lia|].
  destruct (charAt_base64chars (b mod 16 * 4 + c / 64)) as (c3 & E3 & U3 & P3);
    [Z.div_mod_to_equations; lia|].
  destruct (charAt_base64chars (c mod 64)) as (c4 & E4 & U4 & P4);
    [Z.div_mod_to_equations; lia|].
  exists c1, c2, c3, c4. split; [|repeat split; assumption].
  intros n. unfold Edge.encode_chunk. rewrite bitmap_bytes by assumption.
  rewrite !sextet, sextet_0 by lia.
  rewrite H1, H2, H3, H4, E1, E2, E3, E4. reflexivity.
Qed.

Lemma string_ind3 (P : string -> Prop) :
  P "" ->
  (forall a, P (String a "")) ->
  (forall a b, P (String a (String b ""))) ->
  (forall a b c r, P r -> P (String a (String b (String c r)))) ->
  forall s, P s.
Proof.
  intros H0 H1 H2 H3 s.
  assert (H : P s /\ (forall a, P (String a s)) /\ (forall a b, P (String a (String b s)))).
  { induction s as [|x s (IH1 & IH2 & IH3)]; [auto|].
    split; [apply IH2|]. split; [intros a; apply IH3|].
    intros a b. apply H3, IH1. }
  apply H.
Qed.

(** Decoding the base64 text of a string gives its code units back, as
    bytes. *)
Lemma base64_bytes_roundtrip (str : string) :
  Node.bytes_of_sextets (Node.sextets (Edge.base64Encode str)) = JS.units str.
Proof.
  induction str as [|a|a b|a b c r IH] using string_ind3.
  - reflexivity.
  - cbn [Edge.base64Encode JS.units].
    destruct (encode_chunk_chars (JS.code a) 0 0) as (c1 & c2 & c3 & c4 & -> & U1 & U2 & _ & _ & P1 & P2 & _);
      [apply code_range|lia|lia|].
    cbn. rewrite P1, P2, U1, U2. cbn.
    f_equal. apply (bytes_of_sextet_values (JS.code a) 0 0); [apply code_range|lia|lia].
  - cbn [Edge.base64Encode JS.units].
    destruct (encode_chunk_chars (JS.code a) (JS.code b) 0)
      as (c1 & c2 & c3 & c4 & -> & U1 & U2 & U3 & _ & P1 & P2 & P3 & _);
      [apply code_range|apply code_range|lia|].
    cbn. rewrite P1, P2, P3, U1, U2, U3. cbn.
    destruct (bytes_of_sextet_values (JS.code a) (JS.code b) 0) as (B1 & B2 & _);
      [apply code_range|apply code_range|lia|].
    change (0 / 64) with 0 in *. rewrite Z.add_0_r in *.
    f_equal; [exact B1|]. f_equal. exact B2.
  - cbn [Edge.base64Encode JS.units].
    destruct (encode_chunk_chars (JS.code a) (JS.code b) (JS.code c))
      as (c1 & c2 & c3 & c4 & -> & U1 & U2 & U3 & U4 & P1 & P2 & P3 & P4);
      [apply code_range|apply code_range|apply code_range|].
    simpl. rewrite P1, P2, P3, P4, U1, U2, U3, U4.
    cbn [Node.bytes_of_sextets]. rewrite IH.
    destruct (bytes_of_sextet_values (JS.code a) (JS.code b) (JS.code c)) as (B1 & B2 & B3);
      [apply code_range|apply code_range|apply code_range|].
    rewrite B1, B2, B3. reflexivity.
Qed.

(** Replacing a character by one of the same value changes nothing for
    the decoder. *)
Lemma sextets_replace_all (x y : ascii) (s : string) :
  Node.unbase64 x = Node.unbase64 y ->
  Ascii.eqb x "="%char = false -> Ascii.eqb y "="%char = false ->
  Node.sextets (JS.replace_all x y s) = Node.sextets s.
Proof.
  intros Hv Hx Hy. induction s as [|c s IH]; [reflexivity|].
  cbn [JS.replace_all Node.sextets]. rewrite IH.
  destruct (Ascii.eqb_spec c x) as [->|_]; [|reflexivity].
  rewrite Hx, Hy, Hv. reflexivity.
Qed.

Lemma strip_trailing_empty (s : string) :
  JS.strip_trailing "="%char s = "" -> Node.sextets s = [].
Proof.
  destruct s as [|c s]; [reflexivity|]. cbn [JS.strip_trailing Node.sextets].
  destruct (JS.strip_trailing "="%char s); [|discriminate].
  destruct (Ascii.eqb c "="%char); [reflexivity|discriminate].
Qed.

(** The decoder does not need the padding. *)
Lemma sextets_strip_trailing (s : string) :
  Node.sextets (JS.strip_trailing "="%char s) = Node.sextets s.
Proof.
  induction s as [|c s IH]; [reflexivity|].
  cbn [JS.strip_trailing].
  destruct (JS.strip_trailing "="%char s) as [|c' s'] eqn:Hs.
  - rewrite (strip_trailing_empty s Hs) in IH. cbn [Node.sextets].
    rewrite (strip_trailing_empty s Hs).
    destruct (Ascii.eqb c "="%char) eqn:Hc; cbn [Node.sextets]; rewrite ?Hc; reflexivity.
  - cbn [Node.sextets] in IH |- *. rewrite IH. reflexivity.
Qed.

(** The bytes the origin stage decodes from the token of the edge stage
    are the code units of the URL, for every URL. *)
Lemma token_bytes_roundtrip (u : string) :
  Node.Buffer_from_base64
    (JS.replace_all "_"%char "/"%char (JS.replace_all "-"%char "+"%char (Edge.encodeUrl u)))
  = JS.units u.
Proof.
  unfold Node.Buffer_from_base64, Edge.encodeUrl.
  rewrite !sextets_replace_all by reflexivity.
  rewrite sextets_strip_trailing.
  rewrite !sextets_replace_all by reflexivity.
  apply base64_bytes_roundtrip.
Qed.

Lemma utf8_decode_ascii (bs : Node.bytes) :
  Forall (fun b => b < 128) bs -> Node.utf8_decode bs Node.utf8_idle = bs.
Proof.
  induction 1 as [|b bs Hb _ IH]; [reflexivity|].
  cbn [Node.utf8_decode]. unfold Node.utf8_step, Node.utf8_lead.
  cbn [Node.needed Node.utf8_idle Z.eqb].
  rewrite (proj2 (Z.leb_le b 127)) by lia. rewrite IH. reflexivity.
Qed.

Lemma utf16_units_ascii (bs : list Z) :
  Forall (fun b => b < 128) bs -> concat (map Node.utf16_units bs) = bs.
Proof.
  induction 1 as [|b bs Hb _ IH]; [reflexivity|].
  cbn [map concat]. unfold Node.utf16_units at 1.
  rewrite (proj2 (Z.ltb_lt b 65536)) by lia. rewrite IH. reflexivity.
Qed.

(** C2, as the code has it.  For every URL that matches [^https?://.+]
    and holds ASCII characters only, decoding the token of the edge stage
    gives the URL back. *)
Theorem url_codec_roundtrip (u : string)
    (Hascii : Forall (fun x => x < 128) (JS.units u))
    (Hmatch : JS.match_http_url (JS.units u) = true) :
  Origin.decodeUrl (Edge.encodeUrl u) = Some (JS.units u).
Proof.
  unfold Origin.decodeUrl, Node.Buffer_toString_utf8.
  rewrite token_bytes_roundtrip.
  rewrite utf8_decode_ascii, utf16_units_ascii by exact Hascii.
  rewrite Hmatch. reflexivity.
Qed.

Lemma url_codec_roundtrip_witness :
  Origin.decodeUrl (Edge.encodeUrl "https://example.com/photo.jpg?size=large&v=2")
  = Some (JS.units "https://example.com/photo.jpg?size=large&v=2").
Proof.
  apply url_codec_roundtrip; [|reflexivity].
  repeat constructor.
Defined.

(** Where C2 as it is stated does not hold: a URL that matches the
    pattern and ends with the character of code 233 comes back with
    U+FFFD in its place. *)
Lemma url_codec_counterexample :
  JS.match_http_url (JS.units accented_url) = true /\
  Origin.decodeUrl (Edge.encodeUrl accented_url) =
    Some (JS.units "https://example.com/caf" ++ [65533]) /\
  Origin.decodeUrl (Edge.encodeUrl accented_url) <> Some (JS.units accented_url).
Proof.
  split; [reflexivity|]. split; [vm_compute; reflexivity|].
  vm_compute. discriminate.
Qed.

(** * Further properties of the URL token *)

Lemma replace_all_app (x y : ascii) (s t : string) :
  JS.replace_all x y (s +:+ t) = JS.replace_all x y s +:+ JS.replace_all x y t.
Proof.
  induction s as [|c s IH]; [reflexivity|]. simpl. rewrite IH. reflexivity.
Qed.

Lemma strip_trailing_cons (c : ascii) (s : string) :
  Ascii.eqb c "="%char = false ->
  JS.strip_trailing "="%char (String c s) = String c (JS.strip_trailing "="%char s).
Proof.
  intros Hc. cbn [JS.strip_trailing]. rewrite Hc.
  destruct (JS.strip_trailing "="%char s); reflexivity.
Qed.

(** A character the decoder accepts becomes URL-safe by the substitution,
    and is not the padding character either way. *)
Lemma unbase64_substitute (c : ascii) (k : Z) :
  Node.unbase64 c = Some k ->
  url_safe (substitute c) = true /\ Ascii.eqb (substitute c) "="%char = false.
Proof.
  destruct c as [[] [] [] [] [] [] [] []]; vm_compute; intros H;
    first [discriminate H | split; reflexivity].
Qed.

Lemma replace_all_substitute (s : string) :
  JS.replace_all "/"%char "_"%char (JS.replace_all "+"%char "-"%char s) =
  map_chars substitute s.
Proof.
  induction s as [|c s IH]; [reflexivity|].
  cbn [JS.replace_all map_chars]. rewrite IH. f_equal. unfold substitute.
  destruct (Ascii.eqb_spec c "+"%char) as [->|_]; reflexivity.
Qed.

Lemma encodeUrl_substitute (u : string) :
  Edge.encodeUrl u = JS.strip_trailing "="%char (map_chars substitute (Edge.base64Encode u)).
Proof. unfold Edge.encodeUrl. rewrite replace_all_substitute. reflexivity. Qed.

(** The token, one turn of the encoding loop at a time. *)
Lemma encodeUrl_three (a b c : ascii) (r : string) :
  exists d1 d2 d3 d4,
    Edge.encodeUrl (String a (String b (String c r))) =
      String d1 (String d2 (String d3 (String d4 (Edge.encodeUrl r)))) /\
    url_safe d1 = true /\ url_safe d2 = true /\ url_safe d3 = true /\ url_safe d4 = true.
Proof.
  destruct (encode_chunk_chars (JS.code a) (JS.code b) (JS.code c))
    as (c1 & c2 & c3 & c4 & E & U1 & U2 & U3 & U4 & _);
    [apply code_range|apply code_range|apply code_range|].
  destruct (unbase64_substitute c1 _ U1) as [S1 P1].
  destruct (unbase64_substitute c2 _ U2) as [S2 P2].
  destruct (unbase64_substitute c3 _ U3) as [S3 P3].
  destruct (unbase64_substitute c4 _ U4) as [S4 P4].
  exists (substitute c1), (substitute c2), (substitute c3), (substitute c4).
  split; [|auto].
  rewrite !encodeUrl_substitute. cbn [Edge.base64Encode]. rewrite E.
  change (map_chars substitute
            (String c1 (String c2 ((if 1 <? 3 then String c3 "" else "=") +:+
                                   (if 2 <? 3 then String c4 "" else "="))) +:+
             Edge.base64Encode r))
    with (String (substitute c1) (String (substitute c2) (String (substitute c3)
            (String (substitute c4) (map_chars substitute (Edge.base64Encode r)))))).
  rewrite !strip_trailing_cons by assumption. reflexivity.
Qed.

Lemma encodeUrl_two (a b : ascii) :
  exists d1 d2 d3,
    Edge.encodeUrl (String a (String b "")) = String d1 (String d2 (String d3 "")) /\
    url_safe d1 = true /\ url_safe d2 = true /\ url_safe d3 = true.
Proof.
  destruct (encode_chunk_chars (JS.code a) (JS.code b) 0)
    as (c1 & c2 & c3 & c4 & E & U1 & U2 & U3 & _);
    [apply code_range|apply code_range|lia|].
  destruct (unbase64_substitute c1 _ U1) as [S1 P1].
  destruct (unbase64_substitute c2 _ U2) as [S2 P2].
  destruct (unbase64_substitute c3 _ U3) as [S3 P3].
  exists (substitute c1), (substitute c2), (substitute c3).
  split; [|auto].
  rewrite encodeUrl_substitute. cbn [Edge.base64Encode]. rewrite E.
  change (map_chars substitute
            (String c1 (String c2 ((if 1 <? 2 then String c3 "" else "=") +:+
                                   (if 2 <? 2 then String c4 "" else "=")))))
    with (String (substitute c1) (String (substitute c2) (String (substitute c3) "="))).
  rewrite !strip_trailing_cons by assumption. reflexivity.
Qed.

Lemma encodeUrl_one (a : ascii) :
  exists d1 d2,
    Edge.encodeUrl (String a "") = String d1 (String d2 "") /\
    url_safe d1 = true /\ url_safe d2 = true.
Proof.
  destruct (encode_chunk_chars (JS.code a) 0 0)
    as (c1 & c2 & c3 & c4 & E & U1 & U2 & _);
    [apply code_range|lia|lia|].
  destruct (unbase64_substitute c1 _ U1) as [S1 P1].
  destruct (unbase64_substitute c2 _ U2) as [S2 P2].
  exists (substitute c1), (substitute c2).
  split; [|auto].
  rewrite encodeUrl_substitute. cbn [Edge.base64Encode]. rewrite E.
  change (map_chars substitute
            (String c1 (String c2 ((if 1 <? 1 then String c3 "" else "=") +:+
                                   (if 2 <? 1 then String c4 "" else "=")))))
    with (String (substitute c1) (String (substitute c2) "==")).
  rewrite !strip_trailing_cons by assumption. reflexivity.
Qed.

Lemma all_chars_has_char (P : ascii -> bool) (c : ascii) (s : string) :
  all_chars P s = true -> P c = false -> has_char c s = false.
Proof.
  intros Hs Hc. induction s as [|x s IH]; [reflexivity|].
  cbn [all_chars has_char] in *. apply andb_prop in Hs as [Hx Hs].
  rewrite (IH Hs), orb_false_r. destruct (Ascii.eqb_spec x c) as [->|_]; [congruence|reflexivity].
Qed.

Lemma encodeUrl_all_url_safe (u : string) : all_chars url_safe (Edge.encodeUrl u) = true.
Proof.
  induction u as [|a|a b|a b c r IH] using string_ind3.
  - reflexivity.
  - destruct (encodeUrl_one a) as (d1 & d2 & -> & S1 & S2).
    cbn [all_chars]. rewrite S1, S2. reflexivity.
  - destruct (encodeUrl_two a b) as (d1 & d2 & d3 & -> & S1 & S2 & S3).
    cbn [all_chars]. rewrite S1, S2, S3. reflexivity.
  - destruct (encodeUrl_three a b c r) as (d1 & d2 & d3 & d4 & -> & S1 & S2 & S3 & S4).
    cbn [all_chars]. rewrite S1, S2, S3, S4, IH. reflexivity.
Qed.

(** X1. The token of a URL is made of letters, digits, [-] and [_] only:
    it holds no [/], [+] or [=], whatever the URL. *)
Theorem token_is_url_safe (u : string) :
  all_chars url_safe (Edge.encodeUrl u) = true /\
  has_char "/"%char (Edge.encodeUrl u) = false /\
  has_char "+"%char (Edge.encodeUrl u) = false /\
  has_char "="%char (Edge.encodeUrl u) = false.
Proof.
  pose proof (encodeUrl_all_url_safe u) as H.
  split; [exact H|].
  repeat split; apply (all_chars_has_char url_safe); auto.
Qed.

(** X3. The token of a URL of [n] characters has [(4 n + 2) / 3]
    characters: four for every three characters of the URL, two for a
    remaining one and three for two remaining ones. *)
Theorem token_length (u : string) :
  String.length (Edge.encodeUrl u) = ((4 * String.length u + 2) / 3)%nat.
Proof.
  induction u as [|a|a b|a b c r IH] using string_ind3.
  - reflexivity.
  - destruct (encodeUrl_one a) as (d1 & d2 & -> & _). reflexivity.
  - destruct (encodeUrl_two a b) as (d1 & d2 & d3 & -> & _). reflexivity.
  - destruct (encodeUrl_three a b c r) as (d1 & d2 & d3 & d4 & -> & _).
    cbn [String.length]. rewrite IH.
    replace (4 * S (S (S (String.length r))) + 2)%nat
      with (4 * 3 + (4 * String.length r + 2))%nat by lia.
    rewrite (Nat.div_add_l 4 3) by lia. lia.
Qed.




Lemma encode_chunk_arithmetic (a b c n : Z) :
  0 <= a < 256 -> 0 <= b < 256 -> 0 <= c < 256 ->
  Edge.encode_chunk a b c n =
  JS.charAt Edge.base64chars (a / 4) +:+
  JS.charAt Edge.base64chars (a mod 4 * 16 + b / 16) +:+
  (if 1 <? n then JS.charAt Edge.base64chars (b mod 16 * 4 + c / 64) else "=") +:+
  (if 2 <? n then JS.charAt Edge.base64chars (c mod 64) else "=").
Proof.
  intros Ha Hb Hc.
  destruct (sextets_of_bitmap a b c Ha Hb Hc) as (H1 & H2 & H3 & H4).
  unfold Edge.encode_chunk. rewrite bitmap_bytes by assumption.
  rewrite !sextet, sextet_0 by lia. rewrite H1, H2, H3, H4. reflexivity.
Qed.

Lemma charAt_one (k : Z) :
  0 <= k < 64 -> exists ch, JS.charAt Edge.base64chars k = String ch "".
Proof.
  intros Hk. destruct (charAt_base64chars k Hk) as (ch & E & _). exists ch. exact E.
Qed.

(** X4. The hand-written [base64Encode] computes the standard, padded
    base64 of the code units of its argument: the text that
    [Buffer.toString('base64')] gives for these bytes. *)
Theorem base64Encode_is_standard (str : string) :
  Edge.base64Encode str = Node.Buffer_toString_base64 (JS.units str).
Proof.
  induction str as [|a|a b|a b c r IH] using string_ind3.
  - reflexivity.
  - cbn [Edge.base64Encode JS.units Node.Buffer_toString_base64].
    rewrite encode_chunk_arithmetic by (try apply code_range; lia).
    change (0 / 16) with 0. rewrite Z.add_0_r. reflexivity.
  - cbn [Edge.base64Encode JS.units Node.Buffer_toString_base64].
    rewrite encode_chunk_arithmetic by (try apply code_range; lia).
    change (0 / 64) with 0. rewrite Z.add_0_r. reflexivity.
  - cbn [Edge.base64Encode JS.units Node.Buffer_toString_base64].
    rewrite encode_chunk_arithmetic by apply code_range.
    rewrite IH.
    destruct (charAt_one (JS.code a / 4)) as (c1 & ->);
      [pose proof (code_range a); Z.div_mod_to_equations; lia|].
    destruct (charAt_one (JS.code a mod 4 * 16 + JS.code b / 16)) as (c2 & ->);
      [pose proof (code_range a); pose proof (code_range b); Z.div_mod_to_equations; lia|].
    destruct (charAt_one (JS.code b mod 16 * 4 + JS.code c / 64)) as (c3 & ->);
      [pose proof (code_range b); pose proof (code_range c); Z.div_mod_to_equations; lia|].
    destruct (charAt_one (JS.code c mod 64)) as (c4 & ->);
      [pose proof (code_range c); Z.div_mod_to_equations; lia|].
    reflexivity.
Qed.

(** * The contract between the two stages *)

Lemma has_char_app (c : ascii) (a b : string) :
  has_char c (a +:+ b) = has_char c a || has_char c b.
Proof.
  induction a as [|x a IH]; [reflexivity|]. simpl. rewrite IH. apply orb_assoc.
Qed.

Lemma all_chars_decimal_digits (P : ascii -> bool) (f : nat) (n : Z) (acc : string) :
  0 <= n ->
  (forall d, 0 <= d <= 9 -> P (JS.digit_char d) = true) ->
  all_chars P acc = true ->
  all_chars P (JS.decimal_digits f n acc) = true.
Proof.
  intros Hn HP. revert n acc Hn.
  induction f as [|f IH]; intros n acc Hn Hacc; cbn [JS.decimal_digits].
  - cbn [all_chars]. rewrite HP, Hacc by (pose proof (Z.mod_pos_bound n 10); lia). reflexivity.
  - destruct (n / 10 =? 0).
    + cbn [all_chars]. rewrite HP, Hacc by (pose proof (Z.mod_pos_bound n 10); lia).
      reflexivity.
    + apply IH; [apply Z.div_pos; lia|].
      cbn [all_chars]. rewrite HP, Hacc by (pose proof (Z.mod_pos_bound n 10); lia).
      reflexivity.
Qed.

Lemma Z_toString_url_safe (n : Z) : 0 <= n -> all_chars url_safe (JS.Z_toString n) = true.
Proof.
  intros Hn. unfold JS.Z_toString. rewrite (proj2 (Z.ltb_ge n 0)) by lia.
  apply all_chars_decimal_digits; [exact Hn| |reflexivity].
  intros d Hd. digit_cases d; reflexivity.
Qed.

(** A surviving value is made of letters and digits. *)
Lemma contribution_url_safe (r : Edge.Request) (k s : string) :
  contribution r k = Some s -> all_chars url_safe s = true.
Proof.
  unfold contribution, kept_value.
  destruct (String.eqb k "url"); [discriminate|].
  set (value := default "" _).
  destruct (String.eqb (JS.toLowerCase k) "format").
  { unfold resolved_format.
    destruct (Edge.formatFound _ _) eqn:Hf; [|discriminate].
    intros [= <-].
    destruct (String.eqb _ "auto").
    - destruct (negotiated_format_cases (accept_header r)) as [<-|[<-|[<-|[]]]]; reflexivity.
    - apply formatFound_In in Hf.
      cbn in Hf. repeat destruct Hf as [<-|Hf]; try reflexivity. destruct Hf. }
  assert (Hdim : forall s, bounded_dimension value = Some s -> all_chars url_safe s = true).
  { intros s' H. apply bounded_dimension_Some in H as (n & Hn & ->).
    apply Z_toString_url_safe. lia. }
  destruct (String.eqb (JS.toLowerCase k) "width"); [apply Hdim|].
  destruct (String.eqb (JS.toLowerCase k) "height"); [apply Hdim|].
  destruct (String.eqb (JS.toLowerCase k) "quality"); [|discriminate].
  intros H. apply clamped_quality_Some in H as (n & Hn & ->).
  apply Z_toString_url_safe. lia.
Qed.

Lemma normalizeOperations_url_safe (r : Edge.Request) (name s : string) :
  Edge.normalizeOperations r !! name = Some s -> all_chars url_safe s = true.
Proof.
  intros H. apply normalizeOperations_Some in H as (k & _ & _ & Hc).
  exact (contribution_url_safe r k s Hc).
Qed.

Lemma has_char_join (c : ascii) (sep : string) (l : list string) :
  has_char c sep = false ->
  Forall (fun x => has_char c x = false) l ->
  has_char c (JS.join sep l) = false.
Proof.
  intros Hsep. induction 1 as [|x l Hx Hl IH]; [reflexivity|].
  destruct l as [|y l]; [exact Hx|].
  change (JS.join sep (x :: y :: l)) with (x +:+ sep +:+ JS.join sep (y :: l)).
  rewrite !has_char_app, Hx, Hsep, IH. reflexivity.
Qed.

Lemma split_join (sep : ascii) (l : list string) :
  l <> [] ->
  Forall (fun x => has_char sep x = false) l ->
  Node.split sep (JS.join (String sep "") l) = l.
Proof.
  intros Hne Hl. induction Hl as [|x l Hx Hl IH]; [congruence|].
  destruct l as [|y l]; [apply split_no_char, Hx|].
  change (JS.join (String sep "") (x :: y :: l))
    with (x +:+ String sep (JS.join (String sep "") (y :: l))).
  rewrite split_app by exact Hx. rewrite IH by discriminate. reflexivity.
Qed.

Lemma serialized_clean (c : ascii) (name : string) (v : option string) :
  Ascii.eqb "="%char c = false ->
  has_char c name = false ->
  (forall s, v = Some s -> has_char c s = false) ->
  Forall (fun x => has_char c x = false) (serialized name v).
Proof.
  intros Heq Hname Hv. destruct v as [s|]; [|constructor].
  cbn [serialized]. constructor; [|constructor].
  rewrite !has_char_app, Hname, (Hv s eq_refl). cbn [has_char]. rewrite Heq. reflexivity.
Qed.

(** The items of the suffix hold neither the given character, when it is
    none of a letter, a digit, [-], [_] and [=]. *)
Lemma serialized_operations_clean (c : ascii) (ops : gmap string string) :
  url_safe c = false -> Ascii.eqb "="%char c = false ->
  (forall name s, ops !! name = Some s -> all_chars url_safe s = true) ->
  Forall (fun x => has_char c x = false) (serialized_operations ops).
Proof.
  intros Hc Heq Hops. unfold serialized_operations.
  assert (Hv : forall name s, ops !! name = Some s -> has_char c s = false).
  { intros name s Hs. apply (all_chars_has_char url_safe); [exact (Hops name s Hs)|exact Hc]. }
  assert (Hn : forall name, all_chars url_safe name = true -> has_char c name = false).
  { intros name H. apply (all_chars_has_char url_safe); assumption. }
  repeat apply Forall_app_2;
    (apply serialized_clean;
     [exact Heq|apply Hn; reflexivity|intros s Hs; exact (Hv _ s Hs)]).
Qed.

Lemma canonical_suffix_items (ops : gmap string string) :
  canonical_suffix (ops !! "format") (ops !! "quality") (ops !! "width") (ops !! "height") =
  match serialized_operations ops with
  | [] => "original"
  | l => JS.join "," l
  end.
Proof. reflexivity. Qed.

Lemma serialized_truthy (name : string) (v : option string) :
  JS.truthy name = true -> Forall (fun x => JS.truthy x = true) (serialized name v).
Proof.
  intros Hn. destruct v as [s|]; [|constructor]. constructor; [|constructor].
  destruct name; [discriminate|reflexivity].
Qed.

Lemma join_truthy (sep : string) (l : list string) :
  l <> [] -> Forall (fun x => JS.truthy x = true) l -> JS.truthy (JS.join sep l) = true.
Proof.
  intros Hne Hl. destruct Hl as [|x l' Hx _]; [congruence|].
  destruct x; [discriminate|]. destruct l'; reflexivity.
Qed.

(** The suffix is not empty and holds no [/]. *)
Lemma canonical_suffix_segment (ops : gmap string string) :
  (forall name s, ops !! name = Some s -> all_chars url_safe s = true) ->
  let suffix := canonical_suffix (ops !! "format") (ops !! "quality")
                  (ops !! "width") (ops !! "height") in
  JS.truthy suffix = true /\ has_char "/"%char suffix = false.
Proof.
  intros Hops suffix. subst suffix. rewrite canonical_suffix_items.
  pose proof (serialized_operations_clean "/"%char ops eq_refl eq_refl Hops) as Hclean.
  assert (Htruthy : Forall (fun x => JS.truthy x = true) (serialized_operations ops)).
  { unfold serialized_operations. repeat apply Forall_app_2; apply serialized_truthy; reflexivity. }
  destruct (serialized_operations ops) as [|x l] eqn:Hl; [split; reflexivity|].
  split; [apply join_truthy; [discriminate|exact Htruthy]|].
  apply has_char_join; [reflexivity|exact Hclean].
Qed.

Lemma encodeUrl_truthy (u : string) :
  JS.truthy u = true -> JS.truthy (Edge.encodeUrl u) = true.
Proof.
  destruct u as [|a [|b [|c r]]]; [discriminate| | |]; intros _.
  - destruct (encodeUrl_one a) as (d1 & d2 & -> & _). reflexivity.
  - destruct (encodeUrl_two a b) as (d1 & d2 & d3 & -> & _). reflexivity.
  - destruct (encodeUrl_three a b c r) as (d1 & d2 & d3 & d4 & -> & _). reflexivity.
Qed.

Lemma split_proxy_path (token suffix : string) :
  has_char "/"%char token = false -> has_char "/"%char suffix = false ->
  JS.truthy token = true -> JS.truthy suffix = true ->
  List.filter JS.truthy (Node.split "/"%char ("/proxy/" +:+ token +:+ "/" +:+ suffix)) =
  ["proxy"; token; suffix].
Proof.
  intros Ht Hs Tt Ts.
  change ("/proxy/" +:+ token +:+ "/" +:+ suffix)
    with (String "/"%char ("proxy" +:+ String "/"%char (token +:+ String "/"%char suffix))).
  cbn [Node.split Ascii.eqb Bool.eqb].
  rewrite split_app by reflexivity. rewrite split_app by exact Ht.
  rewrite split_no_char by exact Hs.
  cbn [List.filter JS.truthy]. rewrite Tt, Ts. reflexivity.
Qed.

(** X5. The path the edge stage writes is read back by the origin stage
    as exactly three segments: [proxy], the token of the URL and the
    operations suffix.  Neither the token nor the suffix is empty or holds
    a [/]. *)
Theorem rewritten_path_segments (r : Edge.Request) (u : string)
    (Hp : JS.starts_with "/proxy/" (Edge.uri r) = false)
    (Hu : Edge.prop (Edge.querystring r) "url" = Some u)
    (Hm : JS.match_http_url (JS.units u) = true) :
  exists r',
    Edge.handler r = Edge.Forward r' /\
    path_parts (get (Edge.uri r'))
    = ["proxy"; Edge.encodeUrl u; Edge.operationsSuffix (Edge.normalizeOperations r)].
Proof.
  eexists. split; [exact (handler_rewrites r u Hp Hu Hm)|].
  unfold path_parts, get.
  cbn [Origin.event_path Origin.requestContext Origin.http Origin.path Edge.uri].
  unfold canonical_path.
  rewrite (operationsSuffix_canonical _ (normalizeOperations_invariant r)).
  destruct (canonical_suffix_segment (Edge.normalizeOperations r)
              (normalizeOperations_url_safe r)) as [Ts Hs].
  apply split_proxy_path; [|exact Hs| |exact Ts].
  - apply (all_chars_has_char url_safe); [apply encodeUrl_all_url_safe|reflexivity].
  - apply encodeUrl_truthy, match_http_url_truthy, Hm.
Qed.

Lemma rewritten_path_segments_witness :
  exists r',
    Edge.handler request_a = Edge.Forward r' /\
    path_parts (get (Edge.uri r'))
    = ["proxy"; Edge.encodeUrl example_url;
       Edge.operationsSuffix (Edge.normalizeOperations request_a)].
Proof.
  apply (rewritten_path_segments request_a example_url); reflexivity.
Defined.

Lemma entry_named (name v : string) :
  has_char "="%char name = false -> has_char "="%char v = false ->
  Origin.entry (name +:+ "=" +:+ v) = (name, Some v).
Proof. intros Hn Hv. exact (entry_pair name v Hn Hv). Qed.

Lemma operations_of_join (l : list string) :
  l <> [] ->
  Forall (fun x => has_char ","%char x = false) l ->
  Origin.operations_of (JS.join "," l) =
  fold_left (fun m e => <[fst e := snd e]> m) (map Origin.entry l) ∅.
Proof.
  intros Hne Hl. unfold Origin.operations_of.
  rewrite (split_join ","%char l Hne Hl). reflexivity.
Qed.

(** What the origin stage reads in the suffix of an operation set is the
    operation set. *)
Lemma operations_of_suffix (ops : gmap string string) (name : string) :
  (forall name s, ops !! name = Some s ->
                  In name operation_names /\ JS.truthy s = true) ->
  (forall name s, ops !! name = Some s -> all_chars url_safe s = true) ->
  In name operation_names ->
  Origin.operation (Origin.operations_of (Edge.operationsSuffix ops)) name = ops !! name.
Proof.
  intros Hinv Hsafe Hname.
  rewrite (operationsSuffix_canonical ops Hinv), canonical_suffix_items.
  pose proof (serialized_operations_clean ","%char ops eq_refl eq_refl Hsafe) as Hclean.
  assert (Heq : forall n s, ops !! n = Some s -> has_char "="%char s = false).
  { intros n s Hs. apply (all_chars_has_char url_safe); [exact (Hsafe n s Hs)|reflexivity]. }
  assert (Htruthy : forall n s, ops !! n = Some s -> JS.truthy s = true).
  { intros n s Hs. exact (proj2 (Hinv n s Hs)). }
  unfold serialized_operations in *.
  destruct (ops !! "format") as [f|] eqn:Hf, (ops !! "quality") as [q|] eqn:Hq,
           (ops !! "width") as [w|] eqn:Hw, (ops !! "height") as [h|] eqn:Hh;
    cbn [serialized app] in *;
    try (rewrite operations_of_join by (try discriminate; exact Hclean);
         cbn [map fold_left];
         rewrite !entry_named by (try reflexivity; eapply Heq; eassumption);
         cbn [fst snd]);
    cbn in Hname; destruct Hname as [<-|[<-|[<-|[<-|[]]]]];
    unfold Origin.operation;
    repeat first [rewrite lookup_insert_eq | rewrite lookup_insert_ne by done ];
    rewrite ?lookup_empty, ?Hf, ?Hq, ?Hw, ?Hh;
    try reflexivity;
    match goal with
    | |- (if JS.truthy ?v then _ else _) = _ =>
        rewrite (Htruthy _ v ltac:(eassumption)); reflexivity
    end.
Qed.

(** X6. What the origin stage reads in the path the edge stage wrote is
    the operation set of the normalizer: for each of format, quality,
    width and height, the value the origin stage finds is the value that
    survived normalization, and none when none survived. *)
Theorem operations_survive_the_path (r : Edge.Request) :
  Forall (fun name =>
            Origin.operation
              (Origin.operations_of (Edge.operationsSuffix (Edge.normalizeOperations r))) name
            = Edge.normalizeOperations r !! name)
    operation_names.
Proof.
  apply Forall_forall. intros name Hname. apply list_elem_of_In in Hname.
  apply operations_of_suffix;
    [apply normalizeOperations_invariant|apply normalizeOperations_url_safe|exact Hname].
Qed.

Lemma operation_of_normalized (r : Edge.Request) (name : string) :
  In name operation_names ->
  Origin.operation
    (Origin.operations_of (Edge.operationsSuffix (Edge.normalizeOperations r))) name
  = Edge.normalizeOperations r !! name.
Proof.
  intros Hname. apply operations_of_suffix;
    [apply normalizeOperations_invariant|apply normalizeOperations_url_safe|exact Hname].
Qed.

Lemma within_parsed (r : Edge.Request) (name : string) :
  In name ["width"; "height"; "quality"] ->
  within (if String.eqb name "quality" then 100 else 4000)
    (JS.parseInt <$> Edge.normalizeOperations r !! name).
Proof.
  intros Hname. destruct (Edge.normalizeOperations r !! name) as [s|] eqn:Hs; [|exact I].
  destruct (surviving_value_bounds r name s Hname Hs) as (n & Hn & ->).
  cbn [fmap option_fmap option_map within].
  rewrite parseInt_Z_toString by lia. exact Hn.
Qed.

(** X7. For a path written by the edge stage, the numbers the origin
    stage hands to the codec are within bounds: a width or height is
    absent or an integer of (0, 4000], a quality is absent or an integer
    of (0, 100], and never NaN. *)
Theorem normalized_operations_bounded (r : Edge.Request) (imageMetadata : Origin.Metadata) :
  let operationsJSON :=
    Origin.operations_of (Edge.operationsSuffix (Edge.normalizeOperations r)) in
  within 4000 (Origin.width (Origin.resizingOptions operationsJSON)) /\
  within 4000 (Origin.height (Origin.resizingOptions operationsJSON)) /\
  match Origin.toFormat (Origin.pipeline operationsJSON imageMetadata) with
  | Some (_, quality) => within 100 quality
  | None => True
  end.
Proof.
  intros operationsJSON. subst operationsJSON.
  unfold Origin.pipeline, Origin.resizingOptions.
  cbn [Origin.width Origin.height Origin.toFormat].
  rewrite !operation_of_normalized by (cbn; auto).
  split; [exact (within_parsed r "width" ltac:(cbn; auto))|].
  split; [exact (within_parsed r "height" ltac:(cbn; auto))|].
  destruct (Edge.normalizeOperations r !! "format") as [f|]; [|exact I].
  pose proof (within_parsed r "quality" ltac:(cbn; auto)) as Hq.
  destruct (Edge.normalizeOperations r !! "quality") as [q|]; [|exact I].
  destruct (snd (Origin.format_type f)); [exact Hq|exact I].
Qed.

(** X8. For a path written by the edge stage, the content type of the
    answer follows the surviving format: [image/] followed by the format
    for jpeg, webp, avif, png and gif, and [image/jpeg] for svg, which the
    normalizer accepts and the origin stage has no case for.  With no
    format the content type of the source is kept, but for an SVG source,
    which is announced as [image/png]. *)
Theorem content_type_follows_format (r : Edge.Request) (contentType : string) :
  Origin.output_type
    (Origin.operations_of (Edge.operationsSuffix (Edge.normalizeOperations r))) contentType
  = match Edge.normalizeOperations r !! "format" with
    | Some format =>
        if String.eqb format "svg" then "image/jpeg" else "image/" +:+ format
    | None =>
        if String.eqb contentType "image/svg+xml" then "image/png" else contentType
    end.
Proof.
  unfold Origin.output_type. rewrite operation_of_normalized by (cbn; auto).
  destruct (Edge.normalizeOperations r !! "format") as [f|] eqn:Hf; [|reflexivity].
  pose proof (surviving_format_concrete r f Hf) as Hin. cbn in Hin.
  repeat destruct Hin as [<-|Hin]; try reflexivity. destruct Hin.
Qed.

(** * Further properties of the normalizer *)

Lemma prop_other (q1 q2 : list (string * string)) (k v k0 : string) :
  k0 <> k -> Edge.prop (q1 ++ (k, v) :: q2) k0 = Edge.prop (q1 ++ q2) k0.
Proof.
  intros Hne. induction q1 as [|[k1 v1] q1 IH]; cbn [app Edge.prop].
  - destruct (String.eqb_spec k k0); [congruence|reflexivity].
  - rewrite IH. reflexivity.
Qed.

Lemma kept_value_unknown (accept : option string) (name value : string) :
  ~ In name operation_names -> kept_value accept name value = None.
Proof.
  intros Hn. unfold kept_value.
  destruct (String.eqb_spec name "format") as [->|_]; [exfalso; apply Hn; cbn; auto|].
  destruct (String.eqb_spec name "width") as [->|_]; [exfalso; apply Hn; cbn; auto|].
  destruct (String.eqb_spec name "height") as [->|_]; [exfalso; apply Hn; cbn; auto|].
  destruct (String.eqb_spec name "quality") as [->|_]; [exfalso; apply Hn; cbn; auto|].
  reflexivity.
Qed.

Lemma fold_insert_ext (name_of : string -> string) (c1 c2 : string -> option string)
    (ks : list string) (m : gmap string string) :
  (forall k, c1 k = c2 k) ->
  fold_left (insert_contribution name_of c1) ks m =
  fold_left (insert_contribution name_of c2) ks m.
Proof.
  intros H. revert m. induction ks as [|k ks IH]; intros m; [reflexivity|].
  cbn [fold_left]. rewrite IH. unfold insert_contribution. rewrite H. reflexivity.
Qed.

Lemma insert_contribution_None (name_of : string -> string)
    (contrib : string -> option string) (m : gmap string string) (k : string) :
  contrib k = None -> insert_contribution name_of contrib m k = m.
Proof. intros H. unfold insert_contribution. rewrite H. reflexivity. Qed.

(** X9. A query parameter that is neither [url] nor, in any letter case,
    one of format, quality, width and height changes nothing: with or
    without it, wherever it stands and whatever its value, the request is
    rewritten to the same path or refused with the same answer. *)
Theorem unknown_parameter_ignored (r : Edge.Request) (q1 q2 : list (string * string))
    (k v : string)
    (Hp : JS.starts_with "/proxy/" (Edge.uri r) = false)
    (Hurl : k <> "url")
    (Hunknown : ~ In (JS.toLowerCase k) operation_names) :
  Edge.handler (with_querystring r (q1 ++ (k, v) :: q2)) =
  Edge.handler (with_querystring r (q1 ++ q2)).
Proof.
  set (r1 := with_querystring r (q1 ++ (k, v) :: q2)).
  set (r2 := with_querystring r (q1 ++ q2)).
  assert (Hc : forall k0, contribution r1 k0 = contribution r2 k0).
  { intros k0. unfold contribution.
    destruct (String.eqb k0 "url"); [reflexivity|].
    destruct (String.eqb_spec k0 k) as [->|Hne].
    - rewrite !kept_value_unknown by exact Hunknown. reflexivity.
    - cbn [r1 r2 with_querystring Edge.querystring Edge.headers accept_header].
      rewrite prop_other by exact Hne. reflexivity. }
  assert (Hops : Edge.normalizeOperations r1 = Edge.normalizeOperations r2).
  { rewrite !normalizeOperations_fold.
    cbn [r1 r2 with_querystring Edge.querystring].
    unfold Edge.keys. rewrite !map_app. cbn [map fst].
    rewrite !fold_left_app. cbn [fold_left].
    assert (Hk : contribution r1 k = None).
    { unfold contribution. destruct (String.eqb k "url"); [reflexivity|].
      apply kept_value_unknown, Hunknown. }
    rewrite (insert_contribution_None _ _ _ _ Hk).
    rewrite (fold_insert_ext _ _ _ (map fst q1) _ Hc).
    apply (fold_insert_ext _ _ _ (map fst q2) _ Hc). }
  unfold Edge.handler. rewrite Hops.
  cbn [r1 r2 with_querystring Edge.uri Edge.querystring Edge.method Edge.headers].
  rewrite prop_other by (intros Heq; apply Hurl; congruence).
  rewrite indexOf_zero, Hp. reflexivity.
Qed.

Lemma unknown_parameter_ignored_witness :
  Edge.handler (req [("url", example_url); ("utm_source", "mail"); ("width", "300")] None) =
  Edge.handler (req [("url", example_url); ("width", "300")] None).
Proof.
  apply (unknown_parameter_ignored (req [] None) [("url", example_url)] [("width", "300")]
           "utm_source" "mail").
  - reflexivity.
  - discriminate.
  - cbn. intuition discriminate.
Defined.

(** A value that survived survives again, as it is. *)
Lemma kept_value_fixed (r : Edge.Request) (accept : option string) (name s : string) :
  In name operation_names ->
  Edge.normalizeOperations r !! name = Some s ->
  kept_value accept name s = Some s.
Proof.
  intros Hname Hs. cbn in Hname.
  destruct Hname as [<-|[<-|[<-|[<-|[]]]]]; unfold kept_value;
    cbn [String.eqb Ascii.eqb Bool.eqb].
  - pose proof (surviving_format_concrete r s Hs) as Hin. cbn in Hin.
    repeat destruct Hin as [<-|Hin]; try reflexivity. destruct Hin.
  - destruct (surviving_value_bounds r "quality" s ltac:(cbn; auto) Hs) as (n & Hn & ->).
    cbn [String.eqb Ascii.eqb Bool.eqb] in Hn.
    unfold clamped_quality. rewrite parseInt_Z_toString by lia.
    rewrite (proj2 (Z.ltb_lt 0 n)) by lia. rewrite Z.min_l by lia. reflexivity.
  - destruct (surviving_value_bounds r "width" s ltac:(cbn; auto) Hs) as (n & Hn & ->).
    cbn [String.eqb Ascii.eqb Bool.eqb] in Hn.
    unfold bounded_dimension. rewrite parseInt_Z_toString by lia.
    rewrite (proj2 (Z.ltb_lt 0 n)), (proj2 (Z.leb_le n 4000)) by lia. reflexivity.
  - destruct (surviving_value_bounds r "height" s ltac:(cbn; auto) Hs) as (n & Hn & ->).
    cbn [String.eqb Ascii.eqb Bool.eqb] in Hn.
    unfold bounded_dimension. rewrite parseInt_Z_toString by lia.
    rewrite (proj2 (Z.ltb_lt 0 n)), (proj2 (Z.leb_le n 4000)) by lia. reflexivity.
Qed.

Lemma canonical_query_prop (u : string) (ops : gmap string string) (name : string) :
  In name operation_names -> Edge.prop (canonical_query u ops) name = ops !! name.
Proof.
  intros Hname. unfold canonical_query, parameter.
  destruct (ops !! "format") as [f|] eqn:Hf, (ops !! "quality") as [q|] eqn:Hq,
           (ops !! "width") as [w|] eqn:Hw, (ops !! "height") as [h|] eqn:Hh;
    cbn in Hname; destruct Hname as [<-|[<-|[<-|[<-|[]]]]];
    rewrite ?Hf, ?Hq, ?Hw, ?Hh; reflexivity.
Qed.

Lemma canonical_query_keys (u : string) (ops : gmap string string) (k : string) :
  In k (Edge.keys (canonical_query u ops)) ->
  k = "url" \/ (In k operation_names /\ is_Some (ops !! k)).
Proof.
  unfold canonical_query, parameter, Edge.keys.
  destruct (ops !! "format") as [f|] eqn:Hf, (ops !! "quality") as [q|] eqn:Hq,
           (ops !! "width") as [w|] eqn:Hw, (ops !! "height") as [h|] eqn:Hh;
    cbn; intros Hin;
    repeat (destruct Hin as [<-|Hin];
            [first [left; reflexivity
                   |right; split; [auto 6|rewrite ?Hf, ?Hq, ?Hw, ?Hh; eexists; reflexivity]]|]);
    destruct Hin.
Qed.

Lemma lower_operation_name (k name : string) :
  In k operation_names -> In name operation_names -> JS.toLowerCase k = name -> k = name.
Proof.
  cbn. intros Hk Hn.
  destruct Hk as [<-|[<-|[<-|[<-|[]]]]]; intros <-; reflexivity.
Qed.

(** X10. Normalization is idempotent on query strings: the query string
    that spells out the url and the operations that survived, under their
    lower-case names, is rewritten to the same request as the query string
    they survived from. *)
Theorem canonical_query_fixed_point (r : Edge.Request) (u : string)
    (Hp : JS.starts_with "/proxy/" (Edge.uri r) = false)
    (Hu : Edge.prop (Edge.querystring r) "url" = Some u)
    (Hm : JS.match_http_url (JS.units u) = true) :
  Edge.handler (with_querystring r (canonical_query u (Edge.normalizeOperations r))) =
  Edge.handler r.
Proof.
  set (ops := Edge.normalizeOperations r).
  set (r2 := with_querystring r (canonical_query u ops)).
  assert (Hlookup : forall name, In name operation_names ->
                                 Edge.normalizeOperations r2 !! name = ops !! name).
  { intros name Hname. destruct (ops !! name) as [s|] eqn:Hs.
    - rewrite (normalizeOperations_single r2 name name s).
      + unfold contribution.
        rewrite (lower_key_not_url name name) by
          (try exact Hname; cbn in Hname; destruct Hname as [<-|[<-|[<-|[<-|[]]]]]; reflexivity).
        replace (JS.toLowerCase name) with name
          by (cbn in Hname; destruct Hname as [<-|[<-|[<-|[<-|[]]]]]; reflexivity).
        cbn [r2 with_querystring Edge.querystring].
        rewrite (canonical_query_prop u ops name Hname), Hs.
        cbn [default from_option id]. exact (kept_value_fixed r _ name s Hname Hs).
      + cbn [r2 with_querystring Edge.querystring].
        rewrite (canonical_query_prop u ops name Hname). exact Hs.
      + cbn in Hname; destruct Hname as [<-|[<-|[<-|[<-|[]]]]]; reflexivity.
      + intros k' Hin Hk'. cbn [r2 with_querystring Edge.querystring] in Hin.
        apply canonical_query_keys in Hin as [->|[Hin _]]; [|].
        * cbn in Hname, Hk'. destruct Hname as [<-|[<-|[<-|[<-|[]]]]]; discriminate.
        * exact (lower_operation_name k' name Hin Hname Hk').
    - rewrite normalizeOperations_fold. apply fold_insert_absent.
      intros k' Hin Hk'. cbn [r2 with_querystring Edge.querystring] in Hin.
      apply canonical_query_keys in Hin as [->|[Hin [s Hs']]].
      + cbn in Hname, Hk'. destruct Hname as [<-|[<-|[<-|[<-|[]]]]]; discriminate.
      + rewrite (lower_operation_name k' name Hin Hname Hk') in Hs'. congruence. }
  rewrite (handler_rewrites r u Hp Hu Hm).
  rewrite (handler_rewrites r2 u Hp eq_refl Hm).
  unfold canonical_path. fold ops.
  rewrite !Hlookup by (cbn; auto). reflexivity.
Qed.

Lemma canonical_query_fixed_point_witness :
  let r := req [("HEIGHT", "0200"); ("url", example_url); ("Format", "AUTO");
                ("quality", "250"); ("width", "9999")] (Some "image/webp") in
  Edge.handler (with_querystring r (canonical_query example_url (Edge.normalizeOperations r)))
  = Edge.handler r.
Proof.
  intros r. apply (canonical_query_fixed_point r example_url); reflexivity.
Defined.

(** * Further properties of the origin stage *)

Lemma MAX_FILE_SIZE_number (env : Origin.ProcessEnv) :
  exists limit, Origin.MAX_FILE_SIZE env = JS.Num limit.
Proof.
  unfold Origin.MAX_FILE_SIZE.
  destruct (JS.parseInt (Origin.maxFileSize env)) as [|n]; cbn [JS.truthy_number].
  - eexists; reflexivity.
  - destruct (negb (n =? 0)); eexists; reflexivity.
Qed.

(** X11. An image that [fetchExternalImage] returns was checked: the
    response had a success status, its content type, lower-cased,
    contains one of the accepted image types, and the body is not longer
    than the maximal file size. *)
Theorem fetched_image_is_checked (env : Origin.ProcessEnv) (w : Origin.World)
    (url : JS.ustring) (buffer : Node.bytes) (contentType : string) :
  Origin.fetchExternalImage env w url = inl (buffer, contentType) ->
  exists response limit,
    Origin.fetch w url = inl response /\
    Origin.ok response = true /\
    Origin.content_type response = Some contentType /\
    Origin.arrayBuffer response = inl buffer /\
    (exists type, In type Origin.VALID_IMAGE_TYPES /\
                  JS.includes (JS.toLowerCase contentType) type = true) /\
    Origin.MAX_FILE_SIZE env = JS.Num limit /\
    Z.of_nat (length buffer) <= limit.
Proof.
  unfold Origin.fetchExternalImage.
  destruct (MAX_FILE_SIZE_number env) as [limit Hlimit]. rewrite Hlimit.
  destruct (Origin.fetch w url) as [response|e]; [|discriminate].
  destruct (Origin.ok response) eqn:Hok; [|discriminate]. cbn [negb].
  destruct (Origin.content_type response) as [ct|] eqn:Hct; [|discriminate].
  destruct (JS.truthy ct); [|discriminate]. cbn [negb orb].
  destruct (existsb _ Origin.VALID_IMAGE_TYPES) eqn:Hvalid; [|discriminate]. cbn [negb].
  destruct (match Origin.content_length response with Some _ => _ | None => _ end);
    [discriminate|].
  destruct (Origin.arrayBuffer response) as [body|e] eqn:Hbody; [|discriminate].
  cbn [JS.gt]. destruct (Z.ltb_spec limit (Z.of_nat (length body))); [discriminate|].
  intros [= <- <-]. exists response, limit.
  apply existsb_exists in Hvalid as (type & Hin & Hinc).
  repeat split; try assumption; try reflexivity.
  exists type. split; assumption.
Qed.

Lemma fetched_image_is_checked_witness :
  exists response limit,
    Origin.fetch (example_world [] [] true) (JS.units example_url) = inl response /\
    Origin.ok response = true /\
    Origin.content_type response = Some "image/jpeg" /\
    Origin.arrayBuffer response = inl [255; 216; 255] /\
    (exists type, In type Origin.VALID_IMAGE_TYPES /\
                  JS.includes (JS.toLowerCase "image/jpeg") type = true) /\
    Origin.MAX_FILE_SIZE (example_env None "4700000") = JS.Num limit /\
    Z.of_nat (length [255; 216; 255]) <= limit.
Proof.
  apply (fetched_image_is_checked (example_env None "4700000") (example_world [] [] true)
           (JS.units example_url) [255; 216; 255] "image/jpeg").
  reflexivity.
Defined.

(** The answer of the handler when the fetch fails with a message. *)
Lemma handler_fetch_failed (env : Origin.ProcessEnv) (w : Origin.World)
    (store : gmap string Origin.S3Object) (event : Origin.Event)
    (imageUrl : JS.ustring) (message : string) :
  reaches_fetch w event imageUrl ->
  Origin.fetchExternalImage env w imageUrl = inr message ->
  Origin.handler env w store event =
  (Origin.Returned
     (if JS.includes message "timeout"
      then Origin.sendError 504 "Request timeout while fetching image"
      else if JS.includes message "too large"
      then Origin.sendError 413 "Image file too large"
      else if JS.includes message "content type"
      then Origin.sendError 415 "Unsupported media type"
      else Origin.sendError 502 ("Failed to fetch external image: " +:+ message)),
   store).
Proof.
  intros (Hget & enc & rest & p & Hparts & Hdec & Hval) Hfetch.
  unfold Origin.handler. fold (path_parts event).
  rewrite Hget, Hparts. cbn [negb String.eqb Ascii.eqb Bool.eqb].
  rewrite Hdec, Hval, Hfetch.
  destruct (JS.includes message "timeout"); [reflexivity|].
  destruct (JS.includes message "too large"); [reflexivity|].
  destruct (JS.includes message "content type"); reflexivity.
Qed.

Lemma example_reaches_fetch (answer : Origin.FetchResponse + Origin.FetchError) :
  reaches_fetch (world_fetching answer) example_event (JS.units example_url).
Proof.
  split; [reflexivity|]. eexists _, _, _. repeat split; reflexivity.
Qed.

(** X12. When the timer aborts the fetch, the answer is status 504,
    whatever the codec and the store would do, and nothing is stored. *)
Theorem fetch_timeout_is_504 (env : Origin.ProcessEnv) (w : Origin.World)
    (store : gmap string Origin.S3Object) (event : Origin.Event) (imageUrl : JS.ustring)
    (Hreach : reaches_fetch w event imageUrl)
    (Habort : Origin.fetch w imageUrl = inr Origin.AbortError) :
  Origin.handler env w store event =
  (Origin.Returned (Origin.sendError 504 "Request timeout while fetching image"), store).
Proof.
  rewrite (handler_fetch_failed env w store event imageUrl "Request timeout" Hreach).
  - reflexivity.
  - unfold Origin.fetchExternalImage. rewrite Habort. reflexivity.
Qed.

Lemma fetch_timeout_is_504_witness :
  Origin.handler (example_env (Some "transformed-images") "4700000")
    (world_fetching (inr Origin.AbortError)) ∅ example_event =
  (Origin.Returned (Origin.sendError 504 "Request timeout while fetching image"), ∅).
Proof.
  apply (fetch_timeout_is_504 _ _ _ _ (JS.units example_url));
    [apply example_reaches_fetch|reflexivity].
Defined.



Lemma indexOf_from_missing (needle hay : string) (i j : Z) :
  0 <= i -> 0 <= j ->
  (JS.indexOf_from needle hay i =? -1) = (JS.indexOf_from needle hay j =? -1).
Proof.
  revert i j. induction hay as [|c hay IH]; intros i j Hi Hj; cbn [JS.indexOf_from].
  - destruct (JS.starts_with needle ""); [|reflexivity].
    rewrite (proj2 (Z.eqb_neq i (-1))), (proj2 (Z.eqb_neq j (-1))) by lia. reflexivity.
  - destruct (JS.starts_with needle (String c hay)).
    + rewrite (proj2 (Z.eqb_neq i (-1))), (proj2 (Z.eqb_neq j (-1))) by lia. reflexivity.
    + apply IH; lia.
Qed.

(** The needle occurs at the head of the string or further on. *)
Lemma includes_cons (c : ascii) (s needle : string) :
  JS.includes (String c s) needle =
  JS.starts_with needle (String c s) || JS.includes s needle.
Proof.
  unfold JS.includes, JS.indexOf. cbn [JS.indexOf_from].
  destruct (JS.starts_with needle (String c s)); [reflexivity|].
  rewrite (indexOf_from_missing needle s (0 + 1) 0) by lia. reflexivity.
Qed.

(** The message of a refused content type holds the words [content type],
    and [timeout] or [too large] only when the content type holds them. *)
Lemma invalid_content_type_message (contentType : string) :
  let message := "Invalid content type: " +:+ contentType in
  JS.includes message "timeout" = JS.includes contentType "timeout" /\
  JS.includes message "too large" = JS.includes contentType "too large" /\
  JS.includes message "content type" = true.
Proof.
  intros message. subst message.
  change ("Invalid content type: " +:+ contentType)
    with (String "I" (String "n" (String "v" (String "a" (String "l" (String "i"
            (String "d" (String " " (String "c" (String "o" (String "n" (String "t"
            (String "e" (String "n" (String "t" (String " " (String "t" (String "y"
            (String "p" (String "e" (String ":" (String " " contentType)))))))))))))))))))))).
  split; [|split].
  - rewrite !includes_cons. reflexivity.
  - rewrite !includes_cons. reflexivity.
  - rewrite !includes_cons. reflexivity.
Qed.

(** X14. A response with a success status whose content type is absent,
    empty or not an accepted image type is refused with status 415; but
    when the text of the content type itself contains [timeout] the
    answer is 504, and when it contains [too large] the answer is 413,
    since the handler sorts the failure by the words of its message.
    Nothing is stored. *)
Theorem rejected_content_type_status (env : Origin.ProcessEnv) (w : Origin.World)
    (store : gmap string Origin.S3Object) (event : Origin.Event) (imageUrl : JS.ustring)
    (response : Origin.FetchResponse)
    (Hreach : reaches_fetch w event imageUrl)
    (Hfetch : Origin.fetch w imageUrl = inl response)
    (Hok : Origin.ok response = true)
    (Htype : accepted_type (Origin.content_type response) = false) :
  let contentType := Origin.string_of_option (Origin.content_type response) in
  Origin.handler env w store event =
  (Origin.Returned
     (if JS.includes contentType "timeout"
      then Origin.sendError 504 "Request timeout while fetching image"
      else if JS.includes contentType "too large"
      then Origin.sendError 413 "Image file too large"
      else Origin.sendError 415 "Unsupported media type"),
   store).
Proof.
  intros contentType.
  destruct (invalid_content_type_message contentType) as (Ht & Hl & Hc).
  rewrite (handler_fetch_failed env w store event imageUrl
             ("Invalid content type: " +:+ contentType) Hreach).
  - rewrite Ht, Hl, Hc. reflexivity.
  - unfold Origin.fetchExternalImage. rewrite Hfetch, Hok. cbn [negb].
    subst contentType. unfold accepted_type in Htype.
    destruct (Origin.content_type response) as [ct|]; [|reflexivity].
    cbn [Origin.string_of_option].
    destruct (JS.truthy ct); [|reflexivity]. cbn [andb negb orb] in Htype |- *.
    rewrite Htype. reflexivity.
Qed.

Lemma rejected_content_type_status_witness :
  Origin.handler (example_env None "4700000")
    (world_fetching (answer_with (Some "text/html; charset=utf-8") None [1; 2; 3]))
    ∅ example_event =
  (Origin.Returned (Origin.sendError 415 "Unsupported media type"), ∅).
Proof.
  exact (rejected_content_type_status (example_env None "4700000") _ ∅ example_event
           (JS.units example_url)
           {| Origin.ok := true; Origin.status := 200; Origin.statusText := "OK";
              Origin.content_type := Some "text/html; charset=utf-8";
              Origin.content_length := None;
              Origin.arrayBuffer := inl [1; 2; 3] |}
           (example_reaches_fetch _) eq_refl eq_refl eq_refl).
Defined.

(** The words of the content type decide: a page served as
    [text/timeout] is answered with 504. *)
Example content_type_with_timeout :
  Origin.handler (example_env None "4700000")
    (world_fetching (answer_with (Some "text/timeout") None [1; 2; 3])) ∅ example_event =
  (Origin.Returned (Origin.sendError 504 "Request timeout while fetching image"), ∅).
Proof. vm_compute. reflexivity. Qed.

Lemma respond_frame (env : Origin.ProcessEnv) (w : Origin.World)
    (store : gmap string Origin.S3Object) (encodedUrl operationsPrefix : string)
    (imageUrl : JS.ustring) (transformedImage : Node.bytes) (contentType timingLog : string) :
  let result := Origin.respond env w store encodedUrl operationsPrefix imageUrl
                  transformedImage contentType timingLog in
  snd result = store \/
  (snd result =
     <[encodedUrl +:+ "/" +:+ operationsPrefix :=
         Origin.stored_object env operationsPrefix imageUrl transformedImage contentType]>
       store /\
   exists r, fst result = Origin.Returned r /\
             (Origin.statusCode r = 200 \/ Origin.statusCode r = 307)).
Proof.
  unfold Origin.respond.
  repeat match goal with
         | |- context [match ?x with _ => _ end] => destruct x
         end;
    cbn [fst snd]; auto;
    right; (split; [reflexivity|]); eexists; (split; [reflexivity|]); cbn; auto.
Qed.

(** X15. An invocation leaves the bucket as it was or adds one object,
    under the key made of the second and third segments of the path (the
    third being [original] when the path has two); it adds the object
    only when it answers 200 or 307.  It never removes an object, and an
    error response or an exception never goes with a write. *)
Theorem store_changes_only_on_success (env : Origin.ProcessEnv) (w : Origin.World)
    (store : gmap string Origin.S3Object) (event : Origin.Event) :
  let result := Origin.handler env w store event in
  snd result = store \/
  exists encodedUrl rest object r,
    path_parts event = "proxy" :: encodedUrl :: rest /\
    snd result =
      <[encodedUrl +:+ "/" +:+ match rest with p :: _ => p | [] => "original" end := object]>
        store /\
    fst result = Origin.Returned r /\
    (Origin.statusCode r = 200 \/ Origin.statusCode r = 307).
Proof.
  unfold Origin.handler. fold (path_parts event).
  destruct (negb (Origin.is_GET event)); [left; reflexivity|].
  destruct (path_parts event) as [|first [|encodedUrl rest]] eqn:Hparts;
    [left; reflexivity..|].
  destruct (String.eqb_spec first "proxy") as [->|_]; cbn [negb]; [|left; reflexivity].
  destruct (Origin.decodeUrl encodedUrl) as [imageUrl|]; [|left; reflexivity].
  destruct (Origin.validateUrl w imageUrl); [|left; reflexivity].
  destruct (Origin.fetchExternalImage env w imageUrl) as [[body ct]|message].
  - destruct (Origin.sharp_metadata w body) as [md|]; [|left; reflexivity].
    destruct (Origin.sharp_toBuffer w body _) as [image|]; [|left; reflexivity].
    match goal with
    | |- context [Origin.respond ?a ?b ?c ?d ?e ?f ?g ?h ?i] =>
        destruct (respond_frame a b c d e f g h i) as [Hs|(Hs & r & Hr & Hst)]
    end.
    + left. exact Hs.
    + right. eexists encodedUrl, rest, _, r. repeat split; eassumption.
  - destruct (JS.includes message "timeout"); [left; reflexivity|].
    destruct (JS.includes message "too large"); [left; reflexivity|].
    destruct (JS.includes message "content type"); left; reflexivity.
Qed.

(** The guard on an address that begins with the two octets. *)
Lemma blocked_second_octet (a b : Z) (tail : string) :
  a = 172 \/ a = 192 \/ a = 169 ->
  0 <= b < 256 ->
  Origin.blocked (JS.Z_toString a +:+ "." +:+ JS.Z_toString b +:+ "." +:+ tail)
  = blocked_ipv4 a b.
Proof.
  intros Ha Hb.
  assert (H : exists n, (n < 256)%nat /\ b = Z.of_nat n) by (exists (Z.to_nat b); lia).
  destruct H as (n & Hn & ->). clear Hb.
  destruct Ha as [->|[->| ->]];
    do 256 (destruct n as [|n];
      [first [reflexivity
             | destruct tail as [|[[] [] [] [] [] [] [] []] tail]; reflexivity]|]); lia.
Qed.

Lemma blocked_first_octet (a b : Z) (tail : string) :
  0 <= a < 256 -> a <> 172 -> a <> 192 -> a <> 169 ->
  Origin.blocked (JS.Z_toString a +:+ "." +:+ JS.Z_toString b +:+ "." +:+ tail)
  = blocked_ipv4 a b.
Proof.
  intros Ha H172 H192 H169.
  assert (H : exists n, (n < 256)%nat /\ a = Z.of_nat n) by (exists (Z.to_nat a); lia).
  destruct H as (n & Hn & ->). clear Ha.
  do 256 (destruct n as [|n];
          [first [reflexivity | exfalso; lia]|]).
  lia.
Qed.

(** X16. Of the IPv4 addresses, written in dotted decimal, the guard
    refuses exactly those whose first octet is 0, 10, 127, 224 or 240 and
    those of 172.16.0.0/12, 192.168.0.0/16 and 169.254.0.0/16.  Every
    other address passes: no public unicast address is refused, and the
    addresses of 225.0.0.0 to 239.255.255.255 and of 241.0.0.0 to
    255.255.255.255 are not refused either. *)
Theorem guard_on_ipv4 (a b c d : Z) :
  0 <= a < 256 -> 0 <= b < 256 ->
  Origin.blocked (dotted a b c d) = blocked_ipv4 a b.
Proof.
  intros Ha Hb. unfold dotted.
  destruct (Z.eq_dec a 172) as [->|H172]; [apply blocked_second_octet; auto|].
  destruct (Z.eq_dec a 192) as [->|H192]; [apply blocked_second_octet; auto|].
  destruct (Z.eq_dec a 169) as [->|H169]; [apply blocked_second_octet; auto|].
  apply blocked_first_octet; assumption.
Qed.

Lemma guard_on_ipv4_witness :
  Origin.blocked (dotted 172 32 0 1) = false /\ Origin.blocked (dotted 172 31 255 255) = true.
Proof.
  split.
  - exact (guard_on_ipv4 172 32 0 1 ltac:(lia) ltac:(lia)).
  - exact (guard_on_ipv4 172 31 255 255 ltac:(lia) ltac:(lia)).
Defined.

(** * Further properties of the pipeline and of the redirect *)

Lemma format_type_lossy (format : string) :
  snd (Origin.format_type format) =
  negb (String.eqb format "gif" || String.eqb format "png").
Proof.
  unfold Origin.format_type.
  destruct (String.eqb_spec format "jpeg") as [->|_]; [reflexivity|].
  destruct (String.eqb_spec format "gif") as [->|_]; [reflexivity|].
  destruct (String.eqb_spec format "webp") as [->|_]; [reflexivity|].
  destruct (String.eqb_spec format "png") as [->|_]; [reflexivity|].
  destruct (String.eqb_spec format "avif") as [->|_]; reflexivity.
Qed.

Lemma kept_dimension_truthy (r : Edge.Request) (name s : string) :
  In name ["width"; "height"] ->
  Edge.normalizeOperations r !! name = Some s ->
  JS.truthy_number (JS.parseInt s) = true.
Proof.
  intros Hin Hs.
  destruct (surviving_value_bounds r name s) as (n & Hn & ->);
    [cbn in Hin |- *; tauto|exact Hs|].
  rewrite parseInt_Z_toString by lia.
  destruct n; try lia; reflexivity.
Qed.

(** X17. For a path written by the edge stage, the calls the origin stage
    makes on the image are fixed by the operations the edge kept: the
    image is resized exactly when a width or a height was kept, converted
    exactly when a format was kept, and a kept quality reaches the codec
    only together with a format other than gif and png; a quality without
    a format has no effect. *)
Theorem pipeline_of_rewritten_path (r : Edge.Request) (imageMetadata : Origin.Metadata) :
  Origin.pipeline
    (Origin.operations_of (Edge.operationsSuffix (Edge.normalizeOperations r)))
    imageMetadata
  = expected_pipeline (Edge.normalizeOperations r) imageMetadata.
Proof.
  unfold Origin.pipeline, Origin.resizingOptions, expected_pipeline.
  cbn [Origin.width Origin.height].
  rewrite !operation_of_normalized by (cbn; tauto).
  f_equal.
  - destruct (Edge.normalizeOperations r !! "width") as [sw|] eqn:Hw;
      destruct (Edge.normalizeOperations r !! "height") as [sh|] eqn:Hh;
      cbn [fmap option_fmap option_map Origin.truthy_dimension];
      rewrite ?(kept_dimension_truthy r "width" sw) by (cbn; tauto);
      rewrite ?(kept_dimension_truthy r "height" sh) by (cbn; tauto);
      rewrite ?orb_true_r; reflexivity.
  - destruct (Edge.normalizeOperations r !! "format") as [format|]; [|reflexivity].
    rewrite format_type_lossy.
    destruct (String.eqb format "gif" || String.eqb format "png");
      destruct (Edge.normalizeOperations r !! "quality"); reflexivity.
Qed.

Lemma proxy_key_differs (key : string) : "proxy/" +:+ key <> key.
Proof.
  intros H. apply (f_equal String.length) in H. cbn in H. lia.
Qed.

Lemma respond_redirect (env : Origin.ProcessEnv) (w : Origin.World)
    (store : gmap string Origin.S3Object) (encodedUrl operationsPrefix : string)
    (imageUrl : JS.ustring) (transformedImage : Node.bytes) (contentType timingLog : string)
    (r : Origin.Response) :
  let result := Origin.respond env w store encodedUrl operationsPrefix imageUrl
                  transformedImage contentType timingLog in
  fst result = Origin.Returned r ->
  Origin.statusCode r = 307 ->
  In ("Location", "/proxy/" +:+ encodedUrl +:+ "/" +:+ operationsPrefix) (Origin.headers r) /\
  snd result =
    <[encodedUrl +:+ "/" +:+ operationsPrefix :=
        Origin.stored_object env operationsPrefix imageUrl transformedImage contentType]>
      store /\
  too_big env transformedImage = true.
Proof.
  unfold Origin.respond. fold (too_big env transformedImage).
  repeat match goal with
         | |- context [match ?x with _ => _ end] => destruct x eqn:?
         end;
    cbn [fst snd]; intros Hr Hstatus; inversion Hr; subst r;
    try discriminate Hstatus.
  split; [left; reflexivity|]. split; reflexivity.
Qed.

(** X18. Whenever the origin stage answers 307, the transformed image was
    stored in this very call: the Location is [/proxy/] followed by the key
    of the stored object, the object holds the image and it is larger
    than the maximal output size.  The edge stage forwards a request for
    that Location unchanged.  The key lacks the [proxy/] with which the
    path of the Location begins, and the call leaves whatever the bucket
    holds under that path as it was. *)
Theorem redirect_names_stored_object (env : Origin.ProcessEnv) (w : Origin.World)
    (store : gmap string Origin.S3Object) (event : Origin.Event) (r : Origin.Response) :
  let result := Origin.handler env w store event in
  fst result = Origin.Returned r ->
  Origin.statusCode r = 307 ->
  exists key object,
    In ("Location", "/proxy/" +:+ key) (Origin.headers r) /\
    snd result = <[key := object]> store /\
    too_big env (Origin.Body object) = true /\
    snd result !! ("proxy/" +:+ key) = store !! ("proxy/" +:+ key) /\
    forall request,
      Edge.uri request = "/proxy/" +:+ key -> Edge.handler request = Edge.Forward request.
Proof.
  unfold Origin.handler. fold (path_parts event).
  destruct (negb (Origin.is_GET event));
    [cbn; intros Hr Hs; inversion Hr; subst r; discriminate Hs|].
  destruct (path_parts event) as [|first [|encodedUrl rest]] eqn:Hparts;
    [cbn; intros Hr Hs; inversion Hr; subst r; discriminate Hs..|].
  destruct (String.eqb_spec first "proxy") as [->|_]; cbn [negb];
    [|cbn; intros Hr Hs; inversion Hr; subst r; discriminate Hs].
  destruct (Origin.decodeUrl encodedUrl) as [imageUrl|];
    [|cbn; intros Hr Hs; inversion Hr; subst r; discriminate Hs].
  destruct (Origin.validateUrl w imageUrl);
    [|cbn; intros Hr Hs; inversion Hr; subst r; discriminate Hs].
  destruct (Origin.fetchExternalImage env w imageUrl) as [[body ct]|message].
  - destruct (Origin.sharp_metadata w body) as [md|]; [|cbn; discriminate].
    destruct (Origin.sharp_toBuffer w body _) as [image|];
      [|cbn; intros Hr Hs; inversion Hr; subst r; discriminate Hs].
    intros Hr Hs.
    match type of Hr with
    | context [Origin.respond ?a ?b ?c ?d ?e ?f ?g ?h ?i] =>
        destruct (respond_redirect a b c d e f g h i r Hr Hs) as (Hloc & Hstore & Hbig)
    end.
    eexists _, _. split; [exact Hloc|]. split; [exact Hstore|]. split; [exact Hbig|].
    split.
    + rewrite Hstore. apply lookup_insert_ne. intros H. symmetry in H.
      exact (proxy_key_differs _ H).
    + intros request Huri. apply handler_proxy_prefix. rewrite Huri. reflexivity.
  - destruct (JS.includes message "timeout");
      [cbn; intros Hr Hs; inversion Hr; subst r; discriminate Hs|].
    destruct (JS.includes message "too large");
      [cbn; intros Hr Hs; inversion Hr; subst r; discriminate Hs|].
    destruct (JS.includes message "content type");
      cbn; intros Hr Hs; inversion Hr; subst r; discriminate Hs.
Qed.

Lemma example_redirect :
  fst (Origin.handler (example_env (Some "transformed-images") "4")
         (example_world ["93.184.216.34"] [1; 2; 3; 4; 5] true) ∅ example_event)
  = Origin.Returned
      (Origin.redirect_response example_encoded "width=300"
         "img-download;dur=12,img-transform;dur=34,img-upload;dur=5").
Proof.
  rewrite (handler_computed _ _ _ _ _ _ _ _ _ (example_reaches_computed _ _ _ _)).
  reflexivity.
Qed.

Lemma redirect_names_stored_object_witness :
  let env := example_env (Some "transformed-images") "4" in
  let w := example_world ["93.184.216.34"] [1; 2; 3; 4; 5] true in
  exists key object,
    snd (Origin.handler env w ∅ example_event) = <[key := object]> ∅ /\
    too_big env (Origin.Body object) = true.
Proof.
  intros env w.
  destruct (redirect_names_stored_object env w ∅ example_event _ example_redirect eq_refl)
    as (key & object & _ & Hstore & Hbig & _).
  exists key, object. split; assumption.
Defined.

(** X19. A request the edge stage forwards has a path that begins with
    [/proxy/], and the edge stage forwards that request unchanged when it
    sees it again: rewriting twice is rewriting once. *)
Theorem forwarded_request_is_stable (r r' : Edge.Request) :
  Edge.handler r = Edge.Forward r' ->
  JS.starts_with "/proxy/" (Edge.uri r') = true /\ Edge.handler r' = Edge.Forward r'.
Proof.
  intros H.
  assert (Hp : JS.starts_with "/proxy/" (Edge.uri r') = true).
  { unfold Edge.handler in H. rewrite indexOf_zero in H.
    destruct (JS.starts_with "/proxy/" (Edge.uri r)) eqn:Hr.
    - inversion H; subst r'. exact Hr.
    - destruct (Edge.prop (Edge.querystring r) "url") as [imageUrl|]; [|discriminate].
      destruct (negb (JS.truthy imageUrl)); [discriminate|].
      destruct (negb (JS.match_http_url (JS.units imageUrl))); [discriminate|].
      inversion H; subst r'. reflexivity. }
  split; [exact Hp|]. apply handler_proxy_prefix. exact Hp.
Qed.

Lemma forwarded_request_is_stable_witness :
  exists r', Edge.handler request_a = Edge.Forward r' /\ Edge.handler r' = Edge.Forward r'.
Proof.
  eexists. split; [reflexivity|].
  exact (proj2 (forwarded_request_is_stable request_a _ eq_refl)).
Defined.

Lemma respond_returns (env : Origin.ProcessEnv) (w : Origin.World)
    (store : gmap string Origin.S3Object) (encodedUrl operationsPrefix : string)
    (imageUrl : JS.ustring) (transformedImage : Node.bytes) (contentType timingLog : string) :
  fst (Origin.respond env w store encodedUrl operationsPrefix imageUrl transformedImage
         contentType timingLog) <> Origin.Thrown.
Proof.
  unfold Origin.respond.
  repeat match goal with
         | |- context [match ?x with _ => _ end] => destruct x
         end;
    cbn [fst]; discriminate.
Qed.

(** X20. The invocation ends with an exception, and not with a response,
    exactly when the request passed the method, path, decoding and guard
    checks, the image was fetched, and the codec could not read its
    metadata; every other failure is answered with a response. *)
Theorem throws_exactly_on_unreadable_image (env : Origin.ProcessEnv) (w : Origin.World)
    (store : gmap string Origin.S3Object) (event : Origin.Event) :
  fst (Origin.handler env w store event) = Origin.Thrown <->
  exists imageUrl originalImageBody sourceType,
    reaches_fetch w event imageUrl /\
    Origin.fetchExternalImage env w imageUrl = inl (originalImageBody, sourceType) /\
    Origin.sharp_metadata w originalImageBody = None.
Proof.
  split.
  - unfold reaches_fetch, Origin.handler. fold (path_parts event).
    destruct (Origin.is_GET event); cbn [negb]; [|discriminate].
    destruct (path_parts event) as [|first [|encodedUrl rest]] eqn:Hparts;
      [discriminate..|].
    destruct (String.eqb_spec first "proxy") as [->|_]; cbn [negb]; [|discriminate].
    destruct (Origin.decodeUrl encodedUrl) as [imageUrl|] eqn:Hdec; [|discriminate].
    destruct (Origin.validateUrl w imageUrl) as [parsedUrl|] eqn:Hval; [|discriminate].
    destruct (Origin.fetchExternalImage env w imageUrl) as [[body ct]|message] eqn:Hfetch.
    + destruct (Origin.sharp_metadata w body) as [md|] eqn:Hmd.
      * destruct (Origin.sharp_toBuffer w body _) as [image|]; [|discriminate].
        intros H. exfalso. exact (respond_returns _ _ _ _ _ _ _ _ _ H).
      * intros _. exists imageUrl, body, ct.
        split; [|split; [exact Hfetch|exact Hmd]].
        split; [reflexivity|]. exists encodedUrl, rest, parsedUrl.
        split; [reflexivity|]. split; assumption.
    + destruct (JS.includes message "timeout"); [discriminate|].
      destruct (JS.includes message "too large"); [discriminate|].
      destruct (JS.includes message "content type"); discriminate.
  - intros (imageUrl & body & ct & (Hget & enc & rest & p & Hparts & Hdec & Hval) & Hfetch & Hmd).
    unfold Origin.handler. fold (path_parts event).
    rewrite Hget, Hparts. cbn [negb String.eqb Ascii.eqb Bool.eqb].
    rewrite Hdec, Hval, Hfetch, Hmd. reflexivity.
Qed.

Lemma example_unreadable_reaches_fetch :
  reaches_fetch world_unreadable_image example_event (JS.units example_url).
Proof.
  split; [reflexivity|]. eexists _, _, _. repeat split; reflexivity.
Qed.

Lemma throws_exactly_on_unreadable_image_witness :
  fst (Origin.handler (example_env None "4700000") world_unreadable_image ∅ example_event)
  = Origin.Thrown.
Proof.
  apply (proj2 (throws_exactly_on_unreadable_image _ _ _ _)).
  exists (JS.units example_url), [255; 216; 255], "image/jpeg".
  split; [exact example_unreadable_reaches_fetch|]. split; reflexivity.
Defined.

